(** * robosat.pink [download] tool: a shallow embedding of
      [robosat/tools/download.py] and the properties of its tile fetcher.

    The embedding follows the source statement by statement.  The worker
    closure and [main] become state-passing functions over a [World] that
    holds what the Python code reads and writes: the file system, the tiles
    of the run (handled through references, as the worker is handed the
    objects of the list), the monotonic clock, the tqdm counter, the log and
    the record of network requests and sleeps.  Exceptions are results
    ([Raise]).

    What the source imports from elsewhere ([fetch_image], [tile_to_bbox],
    PIL's [Image.open] / [Image.save], the textual form of a tile, the
    formatting of a replacement field that is more than a name) is gathered
    in the record [Env]; nothing is assumed about it unless a theorem says
    so. *)

From Stdlib Require Import ZArith QArith List String Ascii Bool Lia Permutation.
From Stdlib Require Import DecimalString Lqa.
From stdpp Require Import base option list strings.

Import ListNotations.
Local Open Scope string_scope.
Local Open Scope list_scope.

(** ** Tiles and paths *)

(** A tile is a [mercantile.Tile], as in [tests/test_datasets.py]: a named
    tuple of three integers.  Its attributes are read by name; they cannot
    be assigned to (see [assign_y]).  The tiles of a run are the elements of
    [list(tiles_from_csv(args.tiles))]; they are kept in the [heap] of the
    [World] and handled through references. *)
Record Tile := mkTile { tx : Z; ty : Z; tz : Z }.

Abbreviation ref := nat.

(** A path is its list of components; [os.path.join] appends components.
    The names are opaque: no [..], no absolute component. *)
Definition path := list string.

(** [str(n)] for a Python [int]. *)
Definition str_int (n : Z) : string := NilZero.string_of_int (Z.to_int n).

(** ** File system: a tree of directories and files *)

#[local] Set Warnings "-register-all".

Inductive node :=
| File (data : string)
| Dir (entries : list (string * node)).

Fixpoint entry (c : string) (es : list (string * node)) : option node :=
  match es with
  | [] => None
  | (c', n) :: es' => if String.eqb c c' then Some n else entry c es'
  end.

(** Replace the entry named [c], or add it when there is none. *)
Fixpoint set_entry (c : string) (n : node) (es : list (string * node))
  : list (string * node) :=
  match es with
  | [] => [(c, n)]
  | (c', n') :: es' =>
      if String.eqb c c' then (c', n) :: es' else (c', n') :: set_entry c n es'
  end.

Fixpoint lookup_path (p : path) (n : node) : option node :=
  match p with
  | [] => Some n
  | c :: p' =>
      match n with
      | File _ => None
      | Dir es =>
          match entry c es with
          | Some n' => lookup_path p' n'
          | None => None
          end
      end
  end.

(** [os.path.isfile] *)
Definition isfile (p : path) (n : node) : bool :=
  match lookup_path p n with
  | Some (File _) => true
  | _ => false
  end.

(** [os.makedirs(p, exist_ok=True)]: every missing directory along [p] is
    created; [None] stands for the [OSError] raised when a component of [p]
    exists and is a regular file. *)
Fixpoint makedirs (p : path) (n : node) : option node :=
  match n with
  | File _ => None
  | Dir es =>
      match p with
      | [] => Some n
      | c :: p' =>
          match makedirs p' (match entry c es with
                             | Some n' => n'
                             | None => Dir []
                             end) with
          | Some n'' => Some (Dir (set_entry c n'' es))
          | None => None
          end
      end
  end.

(** [open(p, "w+b")] followed by writing [data]: creates or truncates the
    file.  [None] stands for the [OSError] raised when the parent is not a
    directory or [p] is itself a directory. *)
Fixpoint write_file (p : path) (data : string) (n : node) : option node :=
  match p with
  | [] => match n with
          | File _ => Some (File data)
          | Dir _ => None
          end
  | c :: p' =>
      match n with
      | File _ => None
      | Dir es =>
          match p' with
          | [] =>
              match entry c es with
              | Some (Dir _) => None
              | _ => Some (Dir (set_entry c (File data) es))
              end
          | _ :: _ =>
              match entry c es with
              | Some n' =>
                  match write_file p' data n' with
                  | Some n'' => Some (Dir (set_entry c n'' es))
                  | None => None
                  end
              | None => None
              end
          end
      end
  end.

(** [open(p, "a")] followed by writing [data]: the file is created when
    nothing is at [p], and what it holds is kept.  [None] stands for the
    [OSError] raised when the parent is not a directory or [p] is itself a
    directory. *)
Fixpoint append_file (p : path) (data : string) (n : node) : option node :=
  match p with
  | [] => match n with
          | File old => Some (File (old +:+ data))
          | Dir _ => None
          end
  | c :: p' =>
      match n with
      | File _ => None
      | Dir es =>
          match p' with
          | [] =>
              match entry c es with
              | Some (Dir _) => None
              | Some (File old) =>
                  Some (Dir (set_entry c (File (old +:+ data)) es))
              | None => Some (Dir (set_entry c (File data) es))
              end
          | _ :: _ =>
              match entry c es with
              | Some n' =>
                  match append_file p' data n' with
                  | Some n'' => Some (Dir (set_entry c n'' es))
                  | None => None
                  end
              | None => None
              end
          end
      end
  end.

(** ** URL templates and [str.format] *)

(** The URL template, as [str.format] reads it, from left to right:
    literal text, doubled braces, replacement fields, and what cannot be
    read as any of these. *)
Inductive segment :=
| Lit (s : string)          (* literal text without a brace *)
| Brace (b : string)        (* a doubled brace; [b] is the brace it gives *)
| Field (name : string)     (* a field that is a keyword name only *)
| Formatted (name how : string)
                            (* a keyword name followed by [how]: attribute
                               or index accesses, a conversion, a format
                               specification *)
| Positional (text : string)
                            (* a field whose name is empty or a number;
                               [text] is what stands between the braces *)
| Stray (rest : string).    (* a single brace, or a field that cannot be
                               parsed; [rest] is the template from there on *)

Definition template := list segment.

Inductive exn :=
| OSError                       (* [OSError] and its subclasses *)
| KeyError (name : string)
| IndexError
| ValueError
| AttributeError
| ZeroDivisionError
| OtherError (class : string)   (* any other exception class *)
| NeverCompleted.               (* a future nobody runs: the iterator blocks *)

Inductive res (A : Type) :=
| Return (a : A)
| Raise (e : exn).
Arguments Return {A} a.
Arguments Raise {A} e.

Fixpoint kwarg (name : string) (kw : list (string * string)) : option string :=
  match kw with
  | [] => None
  | (k, v) :: kw' => if String.eqb name k then Some v else kwarg name kw'
  end.

(** [v] followed by the rest of the formatted text. *)
Definition prepend (v : string) (rest : res string) : res string :=
  match rest with
  | Return s => Return (v +:+ s)
  | Raise e => Raise e
  end.

(** [tpl.format] with the keyword arguments [kw] and no positional
    argument.  The template is read from left to right and the first
    segment that fails ends the call: a keyword field whose name is not
    among the arguments raises [KeyError], a positional field raises
    [IndexError], a brace that cannot be parsed raises [ValueError].  What a
    field with accesses, a conversion or a format specification gives for
    the value found is [format_field]. *)
Fixpoint format
    (format_field : list (string * string) -> string -> string -> res string)
    (tpl : template) (kw : list (string * string)) : res string :=
  match tpl with
  | [] => Return ""
  | Lit s :: tpl' => prepend s (format format_field tpl' kw)
  | Brace b :: tpl' => prepend b (format format_field tpl' kw)
  | Field name :: tpl' =>
      match kwarg name kw with
      | None => Raise (KeyError name)
      | Some v => prepend v (format format_field tpl' kw)
      end
  | Formatted name how :: tpl' =>
      match kwarg name kw with
      | None => Raise (KeyError name)
      | Some v =>
          match format_field kw v how with
          | Return s => prepend s (format format_field tpl' kw)
          | Raise e => Raise e
          end
      end
  | Positional _ :: _ => Raise IndexError
  | Stray _ :: _ => Raise ValueError
  end.

(** The template as the user typed it, for the first log line. *)
Fixpoint template_text (tpl : template) : string :=
  match tpl with
  | [] => ""
  | Lit s :: tpl' => s +:+ template_text tpl'
  | Brace b :: tpl' => b +:+ b +:+ template_text tpl'
  | Field name :: tpl' => "{" +:+ name +:+ "}" +:+ template_text tpl'
  | Formatted name how :: tpl' =>
      "{" +:+ name +:+ how +:+ "}" +:+ template_text tpl'
  | Positional text :: tpl' => "{" +:+ text +:+ "}" +:+ template_text tpl'
  | Stray rest :: _ => rest
  end.

(** ** Command line, environment, world *)

Record Args := mkArgs {
  args_url : template;
  args_ext : string;
  args_rate : Z;
  args_type : string;
  args_timeout : Z;
  args_out : path;
  args_leaflet : option string
}.

(** What [Image.save(path)] does: it either writes the encoded image, or
    raises [e]; in the second case [left_behind] is what it has put at
    [path] before raising, if anything. *)
Inductive save_result :=
| Saved (data : string)
| SaveRaise (e : exn) (left_behind : option string).

(** The collaborators of [download.py] that are defined elsewhere. *)
Record Env := mkEnv {
  (* robosat.tiles.tile_to_bbox: the four corners, each as [str] prints it *)
  tile_to_bbox : Tile -> string * string * string * string;
  (* robosat.tiles.fetch_image(session, url, timeout): the payload, or a
     false value; the last argument is the number of requests made before
     this one, as the server need not answer twice the same *)
  fetch_image : string -> Z -> nat -> option string;
  (* PIL.Image.open: the image, or the exception it raises *)
  Image_open : string -> res string;
  (* PIL.Image.Image.save(path, optimize=True) *)
  Image_save : string -> path -> save_result;
  (* str(tile) *)
  str_tile : Tile -> string;
  (* str.format on a field that is more than a name: the keyword
     arguments, the value of the field and the rest of the field *)
  format_field : list (string * string) -> string -> string -> res string;
  (* time that passes from the entry of the worker to the call of
     fetch_image (for the task of a given tile), during fetch_image (for a
     URL and the number of earlier requests), and during Image.open and
     save (for the task of a given tile) *)
  dt_prepare : ref -> Q;
  dt_fetch : string -> nat -> Q;
  dt_store : ref -> Q
}.

Inductive event :=
| Request (url : string) (issued_at : Q)   (* fetch_image called *)
| Sleep (duration : Q).                    (* time.sleep called *)

Inductive logline :=
| Begin (url : string)
| Warning (tile : string) (url : option string)
| Notice (already_dl : nat).

Record World := mkWorld {
  fs : node;                       (* the file system *)
  heap : list Tile;                (* the tile objects, by reference *)
  clock : Q;                       (* time.monotonic() *)
  progress : nat;                  (* the tqdm counter *)
  trace : list event;              (* latest event first *)
  logs : list logline;             (* what log.log was given, oldest first *)
  preview : option (list Tile);    (* tiles handed to leaflet(), if called *)
  logfile : option path            (* the file of the Log object, once made *)
}.

Definition set_fs (f : node) (w : World) : World :=
  mkWorld f (heap w) (clock w) (progress w) (trace w) (logs w) (preview w)
          (logfile w).
Definition elapse (d : Q) (w : World) : World :=
  mkWorld (fs w) (heap w) (clock w + d)%Q (progress w) (trace w) (logs w)
          (preview w) (logfile w).
Definition set_progress (n : nat) (w : World) : World :=
  mkWorld (fs w) (heap w) (clock w) n (trace w) (logs w) (preview w)
          (logfile w).
Definition record (e : event) (w : World) : World :=
  mkWorld (fs w) (heap w) (clock w) (progress w) (e :: trace w) (logs w)
          (preview w) (logfile w).
Definition set_preview (ts : list Tile) (w : World) : World :=
  mkWorld (fs w) (heap w) (clock w) (progress w) (trace w) (logs w) (Some ts)
          (logfile w).

(** Attribute access through a reference. *)
Definition deref (w : World) (r : ref) : Tile :=
  match heap w !! r with
  | Some t => t
  | None => mkTile 0 0 0
  end.

(** [tile.y = v]: the attributes of a named tuple cannot be assigned to;
    the statement raises [AttributeError] and the tile is as it was. *)
Definition assign_y (r : ref) (v : Z) (w : World) : res unit * World :=
  (Raise AttributeError, w).

(** [time.sleep(d)] *)
Definition sleep (d : Q) (w : World) : World := elapse d (record (Sleep d) w).

(** [a < b] on timestamps *)
Definition Qltb (a b : Q) : bool := negb (Qle_bool b a).

(** Truth value of [url], which is [None] or a [str]. *)
Definition truthy (u : option string) : bool :=
  match u with
  | Some (String _ _) => true
  | _ => false
  end.

(** The lines of the log as [Log.log] receives them. *)
Definition nl : string := String (ascii_of_nat 10) EmptyString.

Definition render (l : logline) : string :=
  match l with
  | Begin u => "Begin download from " +:+ u
  | Warning t u =>
      "Warning:" +:+ nl +:+ " " +:+ t +:+ " failed, skipping." +:+ nl +:+ " "
      +:+ match u with Some s => s | None => "None" end +:+ nl
  | Notice k =>
      "Notice:" +:+ nl +:+ " " +:+ str_int (Z.of_nat k)
      +:+ " tiles already downloads previously, so skipped now."
  end.

(** Modelled from the spec: the class [Log] of [robosat/log.py] is not
    among the sources.  The spec has [main] open an append-only log,
    persisted as [out/log], to which lines are appended; it gives the log
    no failure of its own.  [Log(p, out=sys.stderr)] opens the file [p] for
    appending, which creates it when it is missing; where [p] cannot be
    opened nothing is written to it. *)
Definition open_log (p : path) (w : World) : World :=
  mkWorld (match append_file p "" (fs w) with
           | Some f => f
           | None => fs w
           end)
          (heap w) (clock w) (progress w) (trace w) (logs w) (preview w)
          (Some p).

(** Modelled from the spec: [log.log(msg)] of the class [Log], which is
    not among the sources.  The message goes to the stream of the log
    ([logs]) and is appended, as one line, to the file of the log. *)
Definition log (l : logline) (w : World) : World :=
  mkWorld (match logfile w with
           | Some p =>
               match append_file p (render l +:+ nl) (fs w) with
               | Some f => f
               | None => fs w
               end
           | None => fs w
           end)
          (heap w) (clock w) (progress w) (trace w) (logs w ++ [l]) (preview w)
          (logfile w).

(** The URLs requested, latest first. *)
Fixpoint requests (tr : list event) : list string :=
  match tr with
  | [] => []
  | Request url _ :: tr' => url :: requests tr'
  | Sleep _ :: tr' => requests tr'
  end.

(** The pauses taken, latest first. *)
Fixpoint sleeps (tr : list event) : list Q :=
  match tr with
  | [] => []
  | Request _ _ :: tr' => sleeps tr'
  | Sleep d :: tr' => d :: sleeps tr'
  end.

(** ** The worker and [main] *)

(** A worker's return value [(tile, url, ok)]; [tile] is the object it
    was given, hence a reference. *)
Definition outcome : Type := ref * option string * bool.

Section Download.

Variable E : Env.
Variable args : Args.

(** [os.path.join(args.out, z, x)] *)
Definition tile_dir (t : Tile) : path :=
  args_out args ++ [str_int (tz t); str_int (tx t)].

(** [os.path.join(args.out, z, x, "{}.{}".format(y, args.ext))] *)
Definition tile_path (t : Tile) : path :=
  args_out args
  ++ [str_int (tz t); str_int (tx t); str_int (ty t) +:+ "." +:+ args_ext args].

(** [os.path.join(args.out, "log")] *)
Definition log_path : path := args_out args ++ ["log"].

(** [args.url.format(x=tile.x, y=tile.y, z=tile.z)] *)
Definition format_xyz (t : Tile) : res string :=
  format (format_field E) (args_url args)
         [("x", str_int (tx t)); ("y", str_int (ty t)); ("z", str_int (tz t))].

(** The [if args.type == ...] chain of the worker.  [Return None] is the
    final [else] (no URL); the TMS branch assigns to [tile.y] before it
    formats the URL. *)
Definition resolve_url (r : ref) (w : World) : res (option string) * World :=
  if String.eqb (args_type args) "XYZ" then
    match format_xyz (deref w r) with
    | Return u => (Return (Some u), w)
    | Raise e => (Raise e, w)
    end
  else if String.eqb (args_type args) "TMS" then
    match assign_y r (2 ^ tz (deref w r) - ty (deref w r) - 1)%Z w with
    | (Raise e, w) => (Raise e, w)
    | (Return _, w) =>
        match format_xyz (deref w r) with
        | Return u => (Return (Some u), w)
        | Raise e => (Raise e, w)
        end
    end
  else if String.eqb (args_type args) "WMS" then
    let '(xmin, ymin, xmax, ymax) := tile_to_bbox E (deref w r) in
    match format (format_field E) (args_url args)
            [("xmin", xmin); ("ymin", ymin); ("xmax", xmax); ("ymax", ymax)] with
    | Return u => (Return (Some u), w)
    | Raise e => (Raise e, w)
    end
  else (Return None, w).

(** [except OSError]: the handler takes [OSError] and lets every other
    exception pass. *)
Definition caught (e : exn) : bool :=
  match e with
  | OSError => true
  | _ => false
  end.

(** The [try: Image.open(res); image.save(path, optimize=True)
    except OSError] block: [Return true] when the image was saved,
    [Return false] when [OSError] was caught, [Raise] for an exception that
    is not an [OSError]. *)
Definition store (payload : string) (p : path) (w : World) : res bool * World :=
  match Image_open E payload with
  | Raise e => (if caught e then Return false else Raise e, w)
  | Return image =>
      match Image_save E image p with
      | Saved data =>
          match write_file p data (fs w) with
          | Some f => (Return true, set_fs f w)
          | None => (Return false, w)
          end
      | SaveRaise e left_behind =>
          (if caught e then Return false else Raise e,
           match left_behind with
           | Some junk =>
               match write_file p junk (fs w) with
               | Some f => set_fs f w
               | None => w
               end
           | None => w
           end)
      end
  end.

(** The closure [worker(tile)]; [num_workers] is the variable of [main]
    it captures. *)
Definition worker (num_workers : Z) (r : ref) (w : World) : res outcome * World :=
  let tick := clock w in
  let t := deref w r in
  match makedirs (tile_dir t) (fs w) with
  | None => (Raise OSError, w)
  | Some f =>
      let w := elapse (dt_prepare E r) (set_fs f w) in
      let path := tile_path t in
      if isfile path (fs w) then (Return (r, None, true), w)
      else
        match resolve_url r w with
        | (Raise e, w) => (Raise e, w)
        | (Return None, w) => (Return (r, None, false), w)
        | (Return (Some url), w) =>
            let attempt := length (requests (trace w)) in
            let w := record (Request url (clock w)) w in
            let res := fetch_image E url (args_timeout args) attempt in
            let w := elapse (dt_fetch E url attempt) w in
            match res with
            | None => (Return (r, Some url, false), w)
            | Some payload =>
                match store payload path w with
                | (Raise e, w) => (Raise e, w)
                | (Return false, w) => (Return (r, Some url, false), w)
                | (Return true, w) =>
                    let w := elapse (dt_store E r) w in
                    let tock := clock w in
                    let time_for_req := (tock - tick)%Q in
                    if (args_rate args =? 0)%Z then (Raise ZeroDivisionError, w)
                    else
                      let time_per_worker :=
                        (inject_Z num_workers / inject_Z (args_rate args))%Q in
                      let w := if Qltb time_for_req time_per_worker
                               then sleep (time_per_worker - time_for_req) w
                               else w in
                      let w := set_progress (S (progress w)) w in
                      (Return (r, Some url, true), w)
                end
            end
        end
  end.

(** [executor.map(worker, tiles)].  Every tile is submitted, in order,
    as one task, and each result is put in the future of its task.  Which
    task completes first is not fixed: [sched] is the order in which the
    tasks take effect on the shared world, each task as one step. *)
Fixpoint run_tasks (num_workers : Z) (sched : list nat)
    (futures : list (option (res outcome))) (w : World)
  : list (option (res outcome)) * World :=
  match sched with
  | [] => (futures, w)
  | i :: sched' =>
      let '(result, w) := worker num_workers i w in
      run_tasks num_workers sched' (<[i := Some result]> futures) w
  end.

(** The body of the [for tile, url, ok in ...] loop. *)
Definition loop_body (o : outcome) (already_dl : nat) (w : World) : nat * World :=
  let '(tile, url, ok) := o in
  let already_dl := if negb (truthy url) && ok then S already_dl else already_dl in
  let w := if negb ok
           then log (Warning (str_tile E (deref w tile)) url) w
           else w in
  (already_dl, w).

(** The [for] loop over the iterator of [executor.map]: the futures are
    read in submission order; an exception stored in a future is raised
    again by the iterator and leaves the loop. *)
Fixpoint consume (futures : list (option (res outcome))) (already_dl : nat)
    (w : World) : res nat * World :=
  match futures with
  | [] => (Return already_dl, w)
  | Some (Return o) :: futures' =>
      let '(already_dl, w) := loop_body o already_dl w in
      consume futures' already_dl w
  | Some (Raise e) :: _ => (Raise e, w)
  | None :: _ => (Raise NeverCompleted, w)   (* does not arise: see [filled] *)
  end.

(** The statements of [main] up to the creation of the pool:
    [os.makedirs(args.out)], the log and its first line, the progress bar,
    and [ThreadPoolExecutor(num_workers)], which refuses a size that is
    not positive. *)
Definition startup (w : World) : res unit * World :=
  let num_workers := args_rate args in
  match makedirs (args_out args) (fs w) with
  | None => (Raise OSError, w)
  | Some f =>
      let w := set_fs f w in
      let w := open_log log_path w in
      let w := log (Begin (template_text (args_url args))) w in
      let w := set_progress 0 w in
      if (num_workers <=? 0)%Z then (Raise ValueError, w)
      else (Return tt, w)
  end.

(** The futures of [executor.map(worker, tiles)], one per tile of the
    list, once the pool has run the tasks in the order [sched]. *)
Definition executor_map (sched : list nat) (w : World)
  : list (option (res outcome)) * World :=
  run_tasks (args_rate args) sched (replicate (length (heap w)) None) w.

(** The statements of [main] after the loop: [if already_dl: log.log(...)]
    and [if args.leaflet: leaflet(...)]. *)
Definition finish (already_dl : nat) (w : World) : World :=
  let w := match already_dl with
           | O => w
           | S _ => log (Notice already_dl) w
           end in
  if truthy (args_leaflet args) then set_preview (heap w) w else w.

(** [main(args)]; the tiles read by [tiles_from_csv] are the objects of
    the heap, and [sched] is the order in which the pool runs the tasks. *)
Definition main (sched : list nat) (w : World) : res unit * World :=
  let already_dl := O in
  match startup w with
  | (Raise e, w) => (Raise e, w)
  | (Return _, w) =>
      let '(futures, w) := executor_map sched w in
      match consume futures already_dl w with
      | (Raise e, w) => (Raise e, w)
      | (Return already_dl, w) => (Return tt, finish already_dl w)
      end
  end.

(** ** What a run lets one observe *)

(** The outcomes on which the body of the [for] loop runs, in the order
    in which it runs on them. *)
Fixpoint consumed (futures : list (option (res outcome))) : list outcome :=
  match futures with
  | Some (Return o) :: futures' => o :: consumed futures'
  | _ => []
  end.

(** The outcomes the tasks have returned, in submission order. *)
Fixpoint returned (futures : list (option (res outcome))) : list outcome :=
  match futures with
  | [] => []
  | Some (Return o) :: futures' => o :: returned futures'
  | _ :: futures' => returned futures'
  end.

(** The tasks that have raised, in submission order. *)
Fixpoint raised (futures : list (option (res outcome))) : list exn :=
  match futures with
  | [] => []
  | Some (Raise e) :: futures' => e :: raised futures'
  | _ :: futures' => raised futures'
  end.

(** The future of the task [j] is completed. *)
Definition filled (futures : list (option (res outcome))) (j : nat) : Prop :=
  exists result, futures !! j = Some (Some result).

(** The three service types the worker knows. *)
Definition supported (type : string) : bool :=
  String.eqb type "XYZ" || String.eqb type "TMS" || String.eqb type "WMS".

(** The keyword arguments [str.format] is given for a service type. *)
Definition keywords (type : string) : list string :=
  if String.eqb type "XYZ" then ["x"; "y"; "z"]
  else if String.eqb type "TMS" then ["x"; "y"; "z"]
  else if String.eqb type "WMS" then ["xmin"; "ymin"; "xmax"; "ymax"]
  else [].

(** The keyword names of the fields of a template. *)
Fixpoint fields (tpl : template) : list string :=
  match tpl with
  | [] => []
  | Field name :: tpl' => name :: fields tpl'
  | Formatted name _ :: tpl' => name :: fields tpl'
  | _ :: tpl' => fields tpl'
  end.

(** A template of literal text and fields that are a keyword name only,
    as the two in the help of the [url] argument. *)
Fixpoint plain (tpl : template) : bool :=
  match tpl with
  | [] => true
  | Lit _ :: tpl' => plain tpl'
  | Field _ :: tpl' => plain tpl'
  | _ => false
  end.

(** Every field of the template is among the keyword arguments of the
    service type. *)
Definition template_fits : bool :=
  forallb (fun name => existsb (String.eqb name) (keywords (args_type args)))
          (fields (args_url args)).

(** The tile of an outcome. *)
Definition tile_of (o : outcome) : ref := fst (fst o).

(** The test [not url and ok] of the loop. *)
Definition counted (o : outcome) : bool :=
  let '(_, url, ok) := o in negb (truthy url) && ok.

(** The line the loop logs for an outcome that is not [ok]. *)
Definition warning_of (w : World) (o : outcome) : logline :=
  let '(tile, url, _) := o in Warning (str_tile E (deref w tile)) url.

(** The three classes of the outcome encoding. *)
Definition already_present (o : outcome) : bool :=
  match o with (_, None, true) => true | _ => false end.
Definition fetched (o : outcome) : bool :=
  match o with (_, Some _, true) => true | _ => false end.
Definition failed (o : outcome) : bool :=
  match o with (_, _, ok) => negb ok end.

End Download.

(** ** Sample runs *)

Definition sample_bbox (t : Tile) : string * string * string * string :=
  ("-180.0", "-85.05", "180.0", "85.05").

Definition sample_str_tile (t : Tile) : string :=
  "Tile(x=" +:+ str_int (tx t) +:+ ", y=" +:+ str_int (ty t)
  +:+ ", z=" +:+ str_int (tz t) +:+ ")".

(** No field of the sample templates is more than a name. *)
Definition sample_format_field (kw : list (string * string)) (v how : string)
  : res string := Raise ValueError.

(** A server that answers nothing. *)
Definition offline : Env :=
  mkEnv sample_bbox (fun _ _ _ => None) (fun payload => Return payload)
        (fun image _ => Saved image) sample_str_tile sample_format_field
        (fun _ => 0%Q) (fun _ _ => 0%Q) (fun _ => 0%Q).

(** A server that answers every URL but the empty one; images open and
    save.  The three durations are those of the arguments. *)
Definition online (prepare fetch store : Q) : Env :=
  mkEnv sample_bbox
        (fun url _ _ => match url with "" => None | _ => Some "payload" end)
        (fun payload => Return payload)
        (fun image _ => Saved image) sample_str_tile sample_format_field
        (fun _ => prepare) (fun _ _ => fetch) (fun _ => store).

(** As [online], but [Image.save] raises [e] and leaves nothing at the
    path: [OSError] for an image it cannot encode, [ValueError] for a file
    extension it does not know. *)
Definition online_save_raises (e : exn) : Env :=
  mkEnv sample_bbox
        (fun url _ _ => match url with "" => None | _ => Some "payload" end)
        (fun payload => Return payload)
        (fun image _ => SaveRaise e None) sample_str_tile sample_format_field
        (fun _ => 0%Q) (fun _ _ => 0%Q) (fun _ => 0%Q).


Definition xyz_url : template :=
  [Lit "http://host/"; Field "z"; Lit "/"; Field "x"; Lit "/"; Field "y"].

Definition bbox_url : template :=
  [Lit "http://host/wms?bbox="; Field "xmin"; Lit ","; Field "ymin"; Lit ",";
   Field "xmax"; Lit ","; Field "ymax"].

(** [download --type type url tiles out], with the defaults of the
    parser for the other options. *)
Definition sample_args (type : string) (url : template) : Args :=
  mkArgs url "webp" 10 type 10 ["out"] None.

(** Nothing on disk yet. *)
Definition fresh (tiles : list Tile) : World :=
  mkWorld (Dir []) tiles 0 0 [] [] None None.

(** The tiles 1/0/0 and 1/1/0 are on disk. *)
Definition downloaded (tiles : list Tile) : World :=
  mkWorld
    (Dir [("out", Dir [("1", Dir [("0", Dir [("0.webp", File "image")]);
                                  ("1", Dir [("0.webp", File "image")])])])])
    tiles 0 0 [] [] None None.

Definition tile_100 : Tile := mkTile 0 0 1.
Definition tile_110 : Tile := mkTile 1 0 1.

(** ** Further observations *)

(** [os.path.isdir] *)
Definition isdir (p : path) (n : node) : bool :=
  match lookup_path p n with
  | Some (Dir _) => true
  | _ => false
  end.

(** [n'] is [n] but for the regular file at [q], which may have been
    created or have grown: the other regular files are those of [n], with
    what they hold, and the directories are those of [n]. *)
Definition same_but (q : path) (n n' : node) : Prop :=
  (forall p, p <> q -> isfile p n' = isfile p n)
  /\ (forall p x, p <> q ->
                 lookup_path p n = Some (File x) ->
                 lookup_path p n' = Some (File x))
  /\ (forall p, isdir p n' = isdir p n).

(** An outcome that carries a URL: a request was made for the tile. *)
Definition has_url (o : outcome) : bool :=
  match o with (_, Some _, _) => true | _ => false end.

(** The world after [download] has fetched the tiles 1/0/0 and 1/1/0
    into an empty directory, the second task first. *)
Definition fetched_world : World :=
  Eval vm_compute in
    snd (main (online 0 0 0) (sample_args "XYZ" xyz_url) [1; 0]
              (fresh [tile_100; tile_110])).

(** * Properties *)

(** ** The file system *)

Lemma entry_set_entry_same c n es : entry c (set_entry c n es) = Some n.
Proof.
  induction es as [|[c' n'] es IH]; simpl.
  - now rewrite String.eqb_refl.
  - destruct (String.eqb c c') eqn:Hc; simpl; rewrite Hc; auto.
Qed.

Lemma entry_set_entry_other c c' n es :
  c <> c' -> entry c' (set_entry c n es) = entry c' es.
Proof.
  intros Hne. induction es as [|[c0 n0] es IH]; simpl.
  - apply String.eqb_neq in Hne. rewrite String.eqb_sym in Hne. now rewrite Hne.
  - destruct (String.eqb_spec c c0) as [->|Hc]; simpl.
    + apply String.eqb_neq in Hne. rewrite String.eqb_sym in Hne. now rewrite Hne.
    + now rewrite IH.
Qed.

Lemma set_entry_id c n es : entry c es = Some n -> set_entry c n es = es.
Proof.
  induction es as [|[c' n'] es IH]; simpl; [discriminate|].
  destruct (String.eqb c c') eqn:Hc.
  - now intros [= ->].
  - intros H. now rewrite IH.
Qed.

Lemma isfile_cons c p es :
  isfile (c :: p) (Dir es) =
  match entry c es with Some n => isfile p n | None => false end.
Proof. unfold isfile; simpl. now destruct (entry c es). Qed.

Lemma isfile_empty_dir p : isfile p (Dir []) = false.
Proof. destruct p; reflexivity. Qed.

(** Creating directories that exist changes nothing. *)
Lemma makedirs_noop d : forall n es,
  lookup_path d n = Some (Dir es) -> makedirs d n = Some n.
Proof.
  induction d as [|c d IH]; intros n es; simpl.
  - now intros [= ->].
  - destruct n as [data|es0]; [discriminate|].
    destruct (entry c es0) as [n'|] eqn:He; [|discriminate].
    intros H. rewrite (IH _ _ H). now rewrite (set_entry_id _ _ _ He).
Qed.

(** Whatever lies below [d] lies in a directory. *)
Lemma lookup_path_parent d c q : forall n n',
  lookup_path (d ++ c :: q) n = Some n' ->
  exists es, lookup_path d n = Some (Dir es).
Proof.
  induction d as [|c0 d IH]; intros n n'; simpl.
  - destruct n as [data|es]; [discriminate|]. eauto.
  - destruct n as [data|es]; [discriminate|].
    destruct (entry c0 es) as [n0|]; [|discriminate]. apply IH.
Qed.

(** [os.makedirs] creates directories only: it neither adds nor removes a
    regular file. *)
Lemma makedirs_isfile d : forall n n' p,
  makedirs d n = Some n' -> isfile p n' = isfile p n.
Proof.
  induction d as [|c d IH]; intros n n' p; destruct n as [data|es]; simpl;
    try discriminate.
  - now intros [= <-].
  - destruct (makedirs d match entry c es with Some n0 => n0 | None => Dir [] end)
      as [n''|] eqn:Hm; [|discriminate].
    intros [= <-]. destruct p as [|c1 p]; [reflexivity|].
    rewrite !isfile_cons.
    destruct (String.eqb_spec c c1) as [->|Hne].
    + rewrite entry_set_entry_same. rewrite (IH _ _ p Hm).
      destruct (entry c1 es); [reflexivity|apply isfile_empty_dir].
    + now rewrite entry_set_entry_other.
Qed.

Lemma makedirs_of_file d c : forall n,
  isfile (d ++ [c]) n = true -> makedirs d n = Some n.
Proof.
  intros n H. unfold isfile in H.
  destruct (lookup_path (d ++ [c]) n) as [n'|] eqn:Hl; [|discriminate].
  destruct (lookup_path_parent _ _ _ _ _ Hl) as [es Hd].
  eapply makedirs_noop; eauto.
Qed.

(** [os.makedirs] raises exactly when the path, or a path above it, is a
    regular file. *)
Lemma makedirs_none d : forall n,
  makedirs d n = None <-> exists k, isfile (take k d) n = true.
Proof.
  induction d as [|c d IH]; intros n.
  - destruct n as [data|es]; simpl.
    + split; [intros _; now exists 0|reflexivity].
    + split; [discriminate|]. intros [k Hk]. now rewrite take_nil in Hk.
  - destruct n as [data|es]; simpl.
    + split; [intros _; now exists 0|reflexivity].
    + destruct (makedirs d match entry c es with Some n0 => n0 | None => Dir [] end)
        as [n''|] eqn:Hm.
      * split; [discriminate|]. intros [[|k] Hk]; [discriminate|].
        simpl in Hk. rewrite isfile_cons in Hk.
        destruct (entry c es) as [n0|]; [|discriminate].
        assert (makedirs d n0 = None) by (apply IH; eauto). congruence.
      * split; [|reflexivity]. intros _. apply IH in Hm as [k Hk].
        destruct (entry c es) as [n0|] eqn:He.
        -- exists (S k). simpl take. now rewrite isfile_cons, He.
        -- now rewrite isfile_empty_dir in Hk.
Qed.

(** Two file systems with the same regular files accept the same
    directories. *)
Lemma makedirs_same_files d n n' :
  (forall p, isfile p n' = isfile p n) ->
  makedirs d n <> None -> makedirs d n' <> None.
Proof.
  intros Hsame Hok Hnone. apply Hok.
  apply makedirs_none in Hnone as [k Hk]. apply makedirs_none.
  exists k. now rewrite <- Hsame.
Qed.

Lemma lookup_path_cons c p es :
  lookup_path (c :: p) (Dir es)
  = match entry c es with Some n => lookup_path p n | None => None end.
Proof. reflexivity. Qed.

(** [os.makedirs] leaves every regular file as it is. *)
Lemma makedirs_keeps_file d : forall n n' p x,
  makedirs d n = Some n' ->
  lookup_path p n = Some (File x) -> lookup_path p n' = Some (File x).
Proof.
  induction d as [|c d IH]; intros n n' p x; destruct n as [data|es]; simpl;
    try discriminate.
  - now intros [= <-].
  - destruct (makedirs d match entry c es with Some n0 => n0 | None => Dir [] end)
      as [n''|] eqn:Hm; [|discriminate].
    intros [= <-]. destruct p as [|c1 p]; [discriminate|].
    rewrite !lookup_path_cons.
    destruct (String.eqb_spec c c1) as [->|Hne].
    + rewrite entry_set_entry_same.
      destruct (entry c1 es) as [n0|]; [|discriminate].
      now apply IH.
    + now rewrite entry_set_entry_other.
Qed.

(** [os.makedirs] leaves every directory a directory. *)
Lemma makedirs_keeps_dir d : forall n n' p,
  makedirs d n = Some n' -> isdir p n = true -> isdir p n' = true.
Proof.
  unfold isdir.
  induction d as [|c d IH]; intros n n' p; destruct n as [data|es]; simpl;
    try discriminate.
  - now intros [= <-].
  - destruct (makedirs d match entry c es with Some n0 => n0 | None => Dir [] end)
      as [n''|] eqn:Hm; [|discriminate].
    intros [= <-]. destruct p as [|c1 p]; [reflexivity|].
    rewrite !lookup_path_cons.
    destruct (String.eqb_spec c c1) as [->|Hne].
    + rewrite entry_set_entry_same.
      destruct (entry c1 es) as [n0|]; [|discriminate].
      now apply IH.
    + now rewrite entry_set_entry_other.
Qed.

(** After [os.makedirs(d)] the path [d] is a directory. *)
Lemma makedirs_isdir d : forall n n',
  makedirs d n = Some n' -> isdir d n' = true.
Proof.
  unfold isdir.
  induction d as [|c d IH]; intros n n' H; destruct n as [data|es];
    simpl in H; try discriminate.
  - now injection H as <-.
  - destruct (makedirs d match entry c es with Some n0 => n0 | None => Dir [] end)
      as [n''|] eqn:Hm; [|discriminate].
    injection H as <-. rewrite lookup_path_cons, entry_set_entry_same.
    exact (IH _ _ Hm).
Qed.

(** A file that was written is there, with what was written. *)
Lemma write_file_lookup q data : forall n n',
  write_file q data n = Some n' -> lookup_path q n' = Some (File data).
Proof.
  induction q as [|c q IH]; intros n n' H; destruct n as [old|es];
    simpl in H; try discriminate.
  - now injection H as <-.
  - destruct q as [|c' q].
    + destruct (entry c es) as [[old|es0]|]; try discriminate;
        injection H as <-; simpl; now rewrite entry_set_entry_same.
    + destruct (entry c es) as [n0|]; [|discriminate].
      destruct (write_file (c' :: q) data n0) as [n''|] eqn:Hw; [|discriminate].
      injection H as <-. rewrite lookup_path_cons, entry_set_entry_same.
      exact (IH _ _ Hw).
Qed.

(** Writing a file that was not there leaves every other file as it is. *)
Lemma write_file_keeps_file q data : forall n n' p x,
  write_file q data n = Some n' ->
  isfile q n = false ->
  lookup_path p n = Some (File x) -> lookup_path p n' = Some (File x).
Proof.
  induction q as [|c q IH]; intros n n' p x; destruct n as [old|es]; simpl;
    try discriminate.
  destruct q as [|c' q].
  - destruct (entry c es) as [[old|es0]|] eqn:He; try discriminate.
    + intros _. rewrite isfile_cons, He. discriminate.
    + intros [= <-] _. destruct p as [|c1 p]; [discriminate|].
      rewrite !lookup_path_cons.
      destruct (String.eqb_spec c c1) as [->|Hne].
      * rewrite He. discriminate.
      * now rewrite entry_set_entry_other.
  - destruct (entry c es) as [n0|] eqn:He; [|discriminate].
    destruct (write_file (c' :: q) data n0) as [n''|] eqn:Hw; [|discriminate].
    intros [= <-]. rewrite isfile_cons, He. intros Hq.
    destruct p as [|c1 p]; [discriminate|].
    rewrite !lookup_path_cons.
    destruct (String.eqb_spec c c1) as [->|Hne].
    + rewrite entry_set_entry_same, He. now apply IH.
    + now rewrite entry_set_entry_other.
Qed.

(** Writing a file leaves every directory a directory. *)
Lemma write_file_keeps_dir q data : forall n n' p,
  write_file q data n = Some n' -> isdir p n = true -> isdir p n' = true.
Proof.
  unfold isdir.
  induction q as [|c q IH]; intros n n' p; destruct n as [old|es]; simpl;
    try discriminate.
  - destruct p; discriminate.
  - destruct q as [|c' q].
    + destruct (entry c es) as [[old|es0]|] eqn:He; try discriminate;
        intros [= <-]; (destruct p as [|c1 p]; [reflexivity|]);
        rewrite !lookup_path_cons;
        (destruct (String.eqb_spec c c1) as [->|Hne];
         [rewrite He; try discriminate; destruct p; discriminate
         |now rewrite entry_set_entry_other]).
    + destruct (entry c es) as [n0|] eqn:He; [|discriminate].
      destruct (write_file (c' :: q) data n0) as [n''|] eqn:Hw; [|discriminate].
      intros [= <-]. destruct p as [|c1 p]; [reflexivity|].
      rewrite !lookup_path_cons.
      destruct (String.eqb_spec c c1) as [->|Hne].
      * rewrite entry_set_entry_same, He. now apply IH.
      * now rewrite entry_set_entry_other.
Qed.

(** Writing a file makes no other path a regular file, and no other
    regular file anything else. *)
Lemma write_file_other q data : forall n n' p,
  write_file q data n = Some n' -> p <> q -> isfile p n' = isfile p n.
Proof.
  induction q as [|c q IH]; intros n n' p H Hne; destruct n as [old|es];
    simpl in H; try discriminate.
  - injection H as <-. destruct p; [congruence|reflexivity].
  - destruct p as [|c1 p]; [destruct q; destruct (entry c es) as [[?|?]|];
                            try discriminate; try (injection H as <-; reflexivity);
                            destruct (write_file _ _ _); try discriminate;
                            injection H as <-; reflexivity|].
    destruct q as [|c' q].
    + destruct (entry c es) as [[old|es0]|] eqn:He; try discriminate;
        injection H as <-; rewrite !isfile_cons;
        (destruct (String.eqb_spec c c1) as [->|Hc];
         [rewrite entry_set_entry_same, He;
          destruct p; [congruence|reflexivity]
         |now rewrite entry_set_entry_other]).
    + destruct (entry c es) as [n0|] eqn:He; [|discriminate].
      destruct (write_file (c' :: q) data n0) as [n''|] eqn:Hw; [|discriminate].
      injection H as <-. rewrite !isfile_cons.
      destruct (String.eqb_spec c c1) as [->|Hc].
      * rewrite entry_set_entry_same, He. apply (IH _ _ _ Hw). congruence.
      * now rewrite entry_set_entry_other.
Qed.

(** ** Appending to a file *)

Lemma isdir_cons c p es :
  isdir (c :: p) (Dir es)
  = match entry c es with Some n => isdir p n | None => false end.
Proof. unfold isdir; simpl. now destruct (entry c es). Qed.

Lemma isdir_of_file p x : isdir p (File x) = false.
Proof. now destruct p. Qed.

(** Appending to a file makes no other path a regular file, and no other
    regular file anything else. *)
Lemma append_file_other q data : forall n n' p,
  append_file q data n = Some n' -> p <> q -> isfile p n' = isfile p n.
Proof.
  induction q as [|c q IH]; intros n n' p H Hne; destruct n as [old|es];
    simpl in H; try discriminate.
  - injection H as <-. destruct p; [congruence|reflexivity].
  - destruct p as [|c1 p].
    { destruct n' as [x|es']; [|reflexivity].
      destruct q; destruct (entry c es) as [[?|?]|]; try discriminate;
        destruct (append_file _ _ _); discriminate. }
    destruct q as [|c' q].
    + destruct (entry c es) as [[old|es0]|] eqn:He; try discriminate;
        injection H as <-; rewrite !isfile_cons;
        (destruct (String.eqb_spec c c1) as [->|Hc];
         [rewrite entry_set_entry_same, He;
          destruct p; [congruence|reflexivity]
         |now rewrite entry_set_entry_other]).
    + destruct (entry c es) as [n0|] eqn:He; [|discriminate].
      destruct (append_file (c' :: q) data n0) as [n''|] eqn:Hw; [|discriminate].
      injection H as <-. rewrite !isfile_cons.
      destruct (String.eqb_spec c c1) as [->|Hc].
      * rewrite entry_set_entry_same, He. apply (IH _ _ _ Hw). congruence.
      * now rewrite entry_set_entry_other.
Qed.

(** Appending to a file leaves every other regular file as it is. *)
Lemma append_file_keeps_file q data : forall n n' p x,
  append_file q data n = Some n' -> p <> q ->
  lookup_path p n = Some (File x) -> lookup_path p n' = Some (File x).
Proof.
  induction q as [|c q IH]; intros n n' p x H Hne; destruct n as [old|es];
    simpl in H; try discriminate.
  - destruct p; [congruence|discriminate].
  - destruct p as [|c1 p]; [discriminate|].
    destruct q as [|c' q].
    + destruct (entry c es) as [[old|es0]|] eqn:He; try discriminate;
        injection H as <-; rewrite !lookup_path_cons;
        (destruct (String.eqb_spec c c1) as [->|Hc];
         [rewrite He; destruct p; [congruence|discriminate]
         |now rewrite entry_set_entry_other]).
    + destruct (entry c es) as [n0|] eqn:He; [|discriminate].
      destruct (append_file (c' :: q) data n0) as [n''|] eqn:Hw; [|discriminate].
      injection H as <-. rewrite !lookup_path_cons.
      destruct (String.eqb_spec c c1) as [->|Hc].
      * rewrite entry_set_entry_same, He. apply (IH _ _ _ _ Hw). congruence.
      * now rewrite entry_set_entry_other.
Qed.

(** Appending to a file neither makes nor removes a directory. *)
Lemma append_file_isdir q data : forall n n' p,
  append_file q data n = Some n' -> isdir p n' = isdir p n.
Proof.
  induction q as [|c q IH]; intros n n' p H; destruct n as [old|es];
    simpl in H; try discriminate.
  - injection H as <-. now rewrite !isdir_of_file.
  - destruct p as [|c1 p].
    { destruct q; destruct (entry c es) as [[?|?]|]; try discriminate;
        try (injection H as <-; reflexivity);
        destruct (append_file _ _ _); try discriminate;
        injection H as <-; reflexivity. }
    destruct q as [|c' q].
    + destruct (entry c es) as [[old|es0]|] eqn:He; try discriminate;
        injection H as <-; rewrite !isdir_cons;
        (destruct (String.eqb_spec c c1) as [->|Hc];
         [rewrite entry_set_entry_same, He; now rewrite ?isdir_of_file
         |now rewrite entry_set_entry_other]).
    + destruct (entry c es) as [n0|] eqn:He; [|discriminate].
      destruct (append_file (c' :: q) data n0) as [n''|] eqn:Hw; [|discriminate].
      injection H as <-. rewrite !isdir_cons.
      destruct (String.eqb_spec c c1) as [->|Hc].
      * rewrite entry_set_entry_same, He. apply (IH _ _ _ Hw).
      * now rewrite entry_set_entry_other.
Qed.

Lemma same_but_refl q n : same_but q n n.
Proof. repeat split; auto. Qed.

Lemma same_but_trans q n1 n2 n3 :
  same_but q n1 n2 -> same_but q n2 n3 -> same_but q n1 n3.
Proof.
  intros (Hf1 & Hk1 & Hd1) (Hf2 & Hk2 & Hd2). repeat split.
  - intros p Hp. now rewrite Hf2, Hf1.
  - intros p x Hp Hx. auto.
  - intros p. now rewrite Hd2, Hd1.
Qed.

Lemma append_file_same_but q data n :
  same_but q n (match append_file q data n with Some n' => n' | None => n end).
Proof.
  destruct (append_file q data n) as [n'|] eqn:Ha; [|apply same_but_refl].
  repeat split.
  - intros p Hp. eapply append_file_other; eauto.
  - intros p x Hp. eapply append_file_keeps_file; eauto.
  - intros p. eapply append_file_isdir; eauto.
Qed.

(** Two file systems with the same regular files along a path accept the
    same directories there. *)
Lemma makedirs_agree d n n' :
  (forall k, isfile (take k d) n' = isfile (take k d) n) ->
  makedirs d n <> None -> makedirs d n' <> None.
Proof.
  intros Hsame Hok Hnone. apply Hok.
  apply makedirs_none in Hnone as [k Hk]. apply makedirs_none.
  exists k. now rewrite <- Hsame.
Qed.

(** [str] of an integer is a numeral. *)
Lemma str_int_not_log z : str_int z <> "log".
Proof.
  unfold str_int. destruct (Z.to_int z) as [d|d]; destruct d; discriminate.
Qed.

Lemma take_app_last_inv {A} (out : list A) z x c : forall k,
  take k (out ++ [z; x]) = out ++ [c] -> z = c.
Proof.
  induction out as [|a out IH]; intros [|k]; simpl; try discriminate.
  - destruct k; simpl; [now intros [= ->]|discriminate].
  - intros [= H]. eauto.
Qed.

(** ** Timestamps *)

Lemma Qltb_lt a b : Qltb a b = true <-> (a < b)%Q.
Proof.
  unfold Qltb. rewrite negb_true_iff. split.
  - intros H. apply Qnot_le_lt. intros Hle.
    apply Qle_bool_iff in Hle. congruence.
  - intros H. destruct (Qle_bool b a) eqn:Hb; [|reflexivity].
    apply Qle_bool_iff in Hb. exfalso. now apply (Qlt_not_le _ _ H).
Qed.

(** ** The worker, one case at a time *)

Section WorkerFacts.

Variable E : Env.
Variable args : Args.

Lemma tile_path_dir t :
  tile_path args t
  = tile_dir args t ++ [str_int (ty t) +:+ "." +:+ args_ext args].
Proof. unfold tile_path, tile_dir. now rewrite <- app_assoc. Qed.

Lemma set_fs_same w : set_fs (fs w) w = w.
Proof. now destruct w. Qed.

(** The file is there: the worker returns before anything else happens. *)
Lemma worker_present nw r w :
  isfile (tile_path args (deref w r)) (fs w) = true ->
  worker E args nw r w = (Return (r, None, true), elapse (dt_prepare E r) w).
Proof.
  intros Hf. unfold worker.
  rewrite tile_path_dir in Hf |- *.
  rewrite (makedirs_of_file _ _ _ Hf), set_fs_same.
  simpl fs. now rewrite Hf.
Qed.

(** The worker hands back the reference it was given. *)
Lemma worker_returns_ref nw r w t u ok w' :
  worker E args nw r w = (Return (t, u, ok), w') -> t = r.
Proof.
  unfold worker.
  destruct (makedirs _ _); [|discriminate].
  destruct (isfile _ _); [now intros [= <-]|].
  destruct (resolve_url _ _ _ _) as [[[url|]|e] w1]; try discriminate;
    [|now intros [= <-]].
  destruct (fetch_image _ _ _ _); [|now intros [= <-]].
  destruct (store _ _ _ _) as [[[]|e] w2]; [|now intros [= <-]|discriminate].
  destruct (args_rate args =? 0)%Z; [discriminate|now intros [= <-]].
Qed.

(** Resolving the URL leaves the world as it is: the tile is only read,
    and the assignment of the TMS branch raises. *)
Lemma resolve_url_world r w x w' :
  resolve_url E args r w = (x, w') -> w' = w.
Proof.
  unfold resolve_url, assign_y.
  destruct (String.eqb (args_type args) "XYZ").
  { destruct (format_xyz _ _ _); now intros [= _ <-]. }
  destruct (String.eqb (args_type args) "TMS"); [now intros [= _ <-]|].
  destruct (String.eqb (args_type args) "WMS").
  { destruct (tile_to_bbox E (deref w r)) as [[[xmin ymin] xmax] ymax].
    destruct (format _ _ _); now intros [= _ <-]. }
  now intros [= _ <-].
Qed.

Lemma resolve_url_frame r w x w' :
  resolve_url E args r w = (x, w') ->
  fs w' = fs w /\ clock w' = clock w /\ trace w' = trace w
  /\ progress w' = progress w /\ logs w' = logs w /\ preview w' = preview w
  /\ length (heap w') = length (heap w).
Proof.
  intros H. apply resolve_url_world in H as ->. repeat split; reflexivity.
Qed.

(** What the URL resolution gives depends on the tile alone. *)
Lemma resolve_url_fst r w w0 :
  heap w0 = heap w ->
  fst (resolve_url E args r w0) = fst (resolve_url E args r w).
Proof.
  intros Hh. unfold resolve_url, assign_y, deref. rewrite Hh.
  destruct (String.eqb (args_type args) "XYZ").
  { now destruct (format_xyz _ _ _). }
  destruct (String.eqb (args_type args) "TMS"); [reflexivity|].
  destruct (String.eqb (args_type args) "WMS"); [|reflexivity].
  destruct (tile_to_bbox E _) as [[[xmin ymin] xmax] ymax].
  now destruct (format _ _ _).
Qed.

(** Under TMS the resolution raises at the assignment to [tile.y]. *)
Lemma resolve_url_tms r w :
  args_type args = "TMS" ->
  resolve_url E args r w = (Raise AttributeError, w).
Proof. intros Hty. unfold resolve_url. now rewrite Hty. Qed.

(** No URL comes out exactly when the service type is none of the three. *)
Lemma resolve_url_unsupported r w :
  supported (args_type args) = false ->
  resolve_url E args r w = (Return None, w).
Proof.
  unfold supported, resolve_url. intros H.
  apply orb_false_elim in H as [H HW]. apply orb_false_elim in H as [HX HT].
  now rewrite HX, HT, HW.
Qed.

Lemma resolve_url_none r w w' :
  resolve_url E args r w = (Return None, w') ->
  supported (args_type args) = false.
Proof.
  unfold supported, resolve_url, assign_y.
  destruct (String.eqb (args_type args) "XYZ").
  { destruct (format_xyz _ _ _); discriminate. }
  destruct (String.eqb (args_type args) "TMS"); [discriminate|].
  destruct (String.eqb (args_type args) "WMS"); [|reflexivity].
  destruct (tile_to_bbox E (deref w r)) as [[[xmin ymin] xmax] ymax].
  destruct (format _ _ _); discriminate.
Qed.

(** An exception of the URL resolution comes with a supported type. *)
Lemma resolve_url_raise_supported r w e w' :
  resolve_url E args r w = (Raise e, w') ->
  supported (args_type args) = true.
Proof.
  intros H. destruct (supported (args_type args)) eqn:Hs; [reflexivity|].
  rewrite resolve_url_unsupported in H by exact Hs. discriminate.
Qed.

(** Opening and saving the image touches nothing but the file system. *)
Lemma store_frame payload p w b w' :
  store E payload p w = (b, w') ->
  heap w' = heap w /\ clock w' = clock w /\ trace w' = trace w
  /\ progress w' = progress w /\ logs w' = logs w /\ preview w' = preview w
  /\ logfile w' = logfile w.
Proof.
  unfold store.
  destruct (Image_open E payload) as [image|e].
  2: { intros [= _ <-]; repeat split; reflexivity. }
  destruct (Image_save E image p) as [data|e [junk|]].
  3: { intros [= _ <-]; repeat split; reflexivity. }
  all: destruct (write_file _ _ _); intros [= _ <-]; repeat split; reflexivity.
Qed.

(** A payload that cannot be opened leaves the world as it was; the
    exception is caught when it is an [OSError] and raised otherwise. *)
Lemma store_open_failed payload p w e :
  Image_open E payload = Raise e ->
  store E payload p w = (if caught e then Return false else Raise e, w).
Proof. unfold store. now intros ->. Qed.

(** What the [try] block gives, by what [Image.save] does, once the
    payload is opened. *)
Lemma store_save_raised payload p w image e lb :
  Image_open E payload = Return image ->
  Image_save E image p = SaveRaise e lb ->
  fst (store E payload p w) = if caught e then Return false else Raise e.
Proof. unfold store. now intros -> ->. Qed.

(** An exception leaves the [try] block only when it is not an
    [OSError], and comes from [Image.open] or from [Image.save]. *)
Lemma store_raise payload p w e w' :
  store E payload p w = (Raise e, w') ->
  caught e = false
  /\ (Image_open E payload = Raise e
      \/ exists image lb,
           Image_open E payload = Return image
           /\ Image_save E image p = SaveRaise e lb).
Proof.
  unfold store.
  destruct (Image_open E payload) as [image|e0] eqn:Hopen.
  2: { destruct (caught e0) eqn:Hc; [discriminate|]. intros [= <- _]. auto. }
  destruct (Image_save E image p) as [data|e0 lb] eqn:Hsave.
  - destruct (write_file _ _ _); discriminate.
  - destruct (caught e0) eqn:Hc; [discriminate|]. intros [= <- _].
    split; [exact Hc|]. right. eauto.
Qed.

End WorkerFacts.

(** The case analysis of [worker], in the order of its [return]s. *)
Ltac worker_cases :=
  unfold worker;
  lazymatch goal with
  | |- context [makedirs ?d ?n] => destruct (makedirs d n) as [f|] eqn:Hmk
  end;
  [ lazymatch goal with
    | |- context [isfile ?p ?n] => destruct (isfile p n) eqn:Hfile
    end;
    [ | lazymatch goal with
        | |- context [resolve_url ?e ?a ?r ?w] =>
            destruct (resolve_url e a r w) as [[[url|]|e0] w1] eqn:Hres
        end;
        [ lazymatch goal with
          | |- context [fetch_image ?e ?u ?t ?n] =>
              destruct (fetch_image e u t n) as [payload|] eqn:Hfetch
          end;
          [ lazymatch goal with
            | |- context [store ?e ?pl ?p ?w] =>
                destruct (store e pl p w) as [[[]|e1] w2] eqn:Hstore
            end;
            [ lazymatch goal with
              | |- context [(?z =? 0)%Z] => destruct (z =? 0)%Z eqn:Hrate
              end | | ] | ] | | ] ] | ].

(** ** Formatting the URL *)

Lemma kwarg_none name kw :
  kwarg name kw = None <-> existsb (String.eqb name) (map fst kw) = false.
Proof.
  induction kw as [|[k v] kw IH]; simpl; [tauto|].
  destruct (String.eqb name k); simpl; [split; discriminate|exact IH].
Qed.

Lemma prepend_raise v rest e : prepend v rest = Raise e -> rest = Raise e.
Proof. destruct rest; simpl; congruence. Qed.

(** On a template of literal text and plain fields the only exception is
    the [KeyError] of a field that is not among the keyword arguments. *)
Lemma format_plain_raise ff tpl kw e :
  plain tpl = true ->
  format ff tpl kw = Raise e ->
  exists name, e = KeyError name /\ In name (fields tpl) /\ kwarg name kw = None.
Proof.
  induction tpl as [|[s|b|name|name how|text|rest] tpl IH]; simpl;
    try discriminate; intros Hp.
  - intros H. apply prepend_raise in H.
    destruct (IH Hp H) as (name & ? & ? & ?). eauto.
  - destruct (kwarg name kw) eqn:Hk.
    + intros H. apply prepend_raise in H.
      destruct (IH Hp H) as (name' & ? & ? & ?). eauto 6.
    + intros [= <-]. eauto.
Qed.

Lemma fields_missing (tpl : template) keys name :
  In name (fields tpl) -> existsb (String.eqb name) keys = false ->
  forallb (fun name => existsb (String.eqb name) keys) (fields tpl) = false.
Proof.
  intros Hin Hex.
  destruct (forallb _ _) eqn:Hall; [|reflexivity].
  rewrite forallb_forall in Hall. rewrite (Hall _ Hin) in Hex. discriminate.
Qed.

(** A plain template with a field that is not among the keyword arguments
    raises [KeyError]. *)
Lemma format_plain_misfit ff tpl kw :
  plain tpl = true ->
  forallb (fun name => existsb (String.eqb name) (map fst kw)) (fields tpl) = false ->
  exists name, format ff tpl kw = Raise (KeyError name).
Proof.
  induction tpl as [|[s|b|name|name how|text|rest] tpl IH]; simpl;
    try discriminate; intros Hp.
  - intros H. destruct (IH Hp H) as [name ->]. eauto.
  - intros H. destruct (kwarg name kw) eqn:Hk; [|eauto].
    destruct (existsb (String.eqb name) (map fst kw)) eqn:Hex.
    + simpl in H. destruct (IH Hp H) as [name' ->]. eauto.
    + apply kwarg_none in Hex. congruence.
Qed.

(** ** What one task does to the world *)

Section TaskFacts.

Variable E : Env.
Variable args : Args.

Lemma requests_grow url (tr : list event) : requests tr <> url :: requests tr.
Proof.
  intros H. apply (f_equal (@length string)) in H. simpl in H. lia.
Qed.

(** A task leaves the tiles, the log and the preview alone. *)
Lemma worker_frame nw r w x w' :
  worker E args nw r w = (x, w') ->
  logs w' = logs w /\ preview w' = preview w
  /\ length (heap w') = length (heap w).
Proof.
  worker_cases; intros [= <- <-]; simpl;
    try (apply resolve_url_world in Hres as ->); simpl;
    try (apply store_frame in Hstore; simpl in Hstore;
         destruct Hstore as (Hh2 & _ & _ & _ & Hl2 & Hp2 & _));
    try (destruct (Qltb _ _); simpl);
    repeat split; congruence.
Qed.

Lemma worker_heap nw r w : heap (snd (worker E args nw r w)) = heap w.
Proof.
  destruct (worker E args nw r w) as [x w'] eqn:Hw. simpl. revert Hw.
  worker_cases; intros [= <- <-]; simpl;
    try (apply resolve_url_world in Hres as ->); simpl;
    try (apply store_frame in Hstore as (Hh & _); simpl in Hh);
    try (destruct (Qltb _ _); simpl); congruence.
Qed.

Lemma worker_logfile nw r w : logfile (snd (worker E args nw r w)) = logfile w.
Proof.
  destruct (worker E args nw r w) as [x w'] eqn:Hw. simpl. revert Hw.
  worker_cases; intros [= <- <-]; simpl;
    try (apply resolve_url_world in Hres as ->); simpl;
    try (apply store_frame in Hstore as (_ & _ & _ & _ & _ & _ & Hlf);
         simpl in Hlf);
    try (destruct (Qltb _ _); simpl); congruence.
Qed.

(** A task that returns a URL has made one request, for that URL; a task
    that returns no URL has made none and has not slept. *)
Lemma worker_trace nw r w x w' :
  worker E args nw r w = (x, w') ->
  match x with
  | Return (_, Some url, _) => requests (trace w') = url :: requests (trace w)
  | Return (_, None, _) => trace w' = trace w
  | Raise _ => True
  end.
Proof.
  worker_cases; intros [= <- <-]; simpl;
    try (apply resolve_url_world in Hres as ->); simpl;
    try (apply store_frame in Hstore; simpl in Hstore;
         destruct Hstore as (_ & _ & Ht2 & _));
    try (destruct (Qltb _ _); simpl);
    rewrite ?Ht2; simpl; auto.
Qed.

(** The tqdm counter moves by one for a tile that was fetched and saved,
    and not at all otherwise. *)
Lemma worker_progress nw r w x w' :
  worker E args nw r w = (x, w') ->
  progress w' = progress w
                + match x with
                  | Return o => if fetched o then 1 else 0
                  | Raise _ => 0
                  end.
Proof.
  worker_cases; intros [= <- <-]; simpl;
    try (apply resolve_url_world in Hres as ->); simpl;
    try (apply store_frame in Hstore; simpl in Hstore;
         destruct Hstore as (_ & _ & _ & Hp2 & _));
    try (destruct (Qltb _ _); simpl);
    rewrite ?Hp2; simpl; lia.
Qed.

(** A task makes at most one request: one when its outcome carries a URL,
    none when it carries none. *)
Lemma worker_requests nw r w :
  exists k,
    length (requests (trace (snd (worker E args nw r w))))
    = length (requests (trace w)) + k
    /\ match fst (worker E args nw r w) with
       | Return o => k = if has_url o then 1 else 0
       | Raise _ => k <= 1
       end.
Proof.
  destruct (worker E args nw r w) as [x w'] eqn:Hw. simpl.
  revert Hw. worker_cases; intros [= <- <-]; simpl;
    try (apply resolve_url_world in Hres as ->); simpl;
    try (apply store_frame in Hstore as (_ & _ & Ht2 & _); simpl in Ht2);
    try (destruct (Qltb _ _); simpl);
    rewrite ?Ht2; simpl;
    first [ exists 0; split; [lia|auto; lia] | exists 1; split; [lia|auto; lia] ].
Qed.

Lemma worker_makedirs_failed nw r w :
  makedirs (tile_dir args (deref w r)) (fs w) = None ->
  worker E args nw r w = (Raise OSError, w).
Proof. unfold worker. now intros ->. Qed.

(** When the image is reported as saved, the file holds what [Image.save]
    produced. *)
Lemma store_saved_file payload p w w' :
  store E payload p w = (Return true, w') ->
  exists image data,
    Image_open E payload = Return image
    /\ Image_save E image p = Saved data
    /\ lookup_path p (fs w') = Some (File data).
Proof.
  unfold store.
  destruct (Image_open E payload) as [image|e] eqn:Hopen.
  2: { destruct (caught e); discriminate. }
  destruct (Image_save E image p) as [data|e lb] eqn:Hsave.
  - destruct (write_file p data (fs w)) as [f|] eqn:Hw; [|discriminate].
    intros [= <-]. exists image, data. simpl.
    repeat split; auto. eapply write_file_lookup; eauto.
  - destruct (caught e); discriminate.
Qed.

(** What holds of the file system and is kept by writing a file that was
    not there, holds after the [try] block. *)
Lemma store_fs_after (P : node -> Prop) payload p w b w' :
  (forall data n n',
      write_file p data n = Some n' -> isfile p n = false -> P n -> P n') ->
  store E payload p w = (b, w') ->
  isfile p (fs w) = false -> P (fs w) -> P (fs w').
Proof.
  intros Hwrite. unfold store. intros Hs Hp HP. revert Hs.
  destruct (Image_open E payload) as [image|e]; [|now intros [= _ <-]].
  destruct (Image_save E image p) as [data|e [junk|]]; [| |now intros [= _ <-]].
  - destruct (write_file p data (fs w)) as [f|] eqn:Hw; intros [= _ <-]; auto.
    simpl. eapply Hwrite; eauto.
  - destruct (write_file p junk (fs w)) as [f|] eqn:Hw; intros [= _ <-]; auto.
    simpl. eapply Hwrite; eauto.
Qed.

(** What holds of the file system once the directory of the tile is made,
    and is kept by writing a file that was not there, holds after the
    task. *)
Lemma worker_fs_after (P : node -> Prop) nw r w x w' f :
  (forall q data n n',
      write_file q data n = Some n' -> isfile q n = false -> P n -> P n') ->
  worker E args nw r w = (x, w') ->
  makedirs (tile_dir args (deref w r)) (fs w) = Some f ->
  P f -> P (fs w').
Proof.
  intros Hwrite Hw Hmk HP. revert Hw. unfold worker. rewrite Hmk.
  destruct (isfile _ _) eqn:Hfile; [now intros [= <- <-]|]. simpl in Hfile.
  destruct (resolve_url _ _ _ _) as [[[url|]|e0] w1] eqn:Hres;
    apply resolve_url_world in Hres as ->; try (now intros [= <- <-]).
  destruct (fetch_image _ _ _ _) as [payload|]; [|now intros [= <- <-]].
  destruct (store _ _ _ _) as [b w2] eqn:Hstore.
  assert (HP2 : P (fs w2)).
  { eapply store_fs_after; [apply Hwrite|exact Hstore| |]; simpl; auto. }
  destruct b as [[]|e1]; try (now intros [= <- <-]).
  destruct (args_rate args =? 0)%Z; [now intros [= <- <-]|].
  destruct (Qltb _ _); now intros [= <- <-].
Qed.

(** A task never removes a regular file and never changes one. *)
Lemma worker_keeps_file nw r w p d :
  lookup_path p (fs w) = Some (File d) ->
  lookup_path p (fs (snd (worker E args nw r w))) = Some (File d).
Proof.
  intros Hp. destruct (worker E args nw r w) as [x w'] eqn:Hw. simpl.
  destruct (makedirs (tile_dir args (deref w r)) (fs w)) as [f|] eqn:Hmk.
  - eapply (worker_fs_after (fun n => lookup_path p n = Some (File d)));
      [|exact Hw|exact Hmk|].
    + intros q data n n' Hwr Hq Hn. eapply write_file_keeps_file; eauto.
    + eapply makedirs_keeps_file; eauto.
  - rewrite worker_makedirs_failed in Hw by exact Hmk. now injection Hw as _ <-.
Qed.

(** A task never removes a directory. *)
Lemma worker_keeps_dir nw r w p :
  isdir p (fs w) = true -> isdir p (fs (snd (worker E args nw r w))) = true.
Proof.
  intros Hp. destruct (worker E args nw r w) as [x w'] eqn:Hw. simpl.
  destruct (makedirs (tile_dir args (deref w r)) (fs w)) as [f|] eqn:Hmk.
  - eapply (worker_fs_after (fun n => isdir p n = true));
      [|exact Hw|exact Hmk|].
    + intros q data n n' Hwr _ Hn. eapply write_file_keeps_dir; eauto.
    + eapply makedirs_keeps_dir; eauto.
  - rewrite worker_makedirs_failed in Hw by exact Hmk. now injection Hw as _ <-.
Qed.

Lemma isfile_lookup p n :
  isfile p n = true <-> exists d, lookup_path p n = Some (File d).
Proof.
  unfold isfile. destruct (lookup_path p n) as [[d|es]|]; split;
    try discriminate; eauto; intros [d' H]; discriminate.
Qed.

Lemma isdir_makedirs p n : isdir p n = true -> makedirs p n = Some n.
Proof.
  unfold isdir. destruct (lookup_path p n) as [[d|es]|] eqn:Hl; try discriminate.
  intros _. eapply makedirs_noop; eauto.
Qed.

Lemma worker_keeps_isfile nw r w p :
  isfile p (fs w) = true -> isfile p (fs (snd (worker E args nw r w))) = true.
Proof.
  rewrite !isfile_lookup. intros [d Hd]. exists d. now apply worker_keeps_file.
Qed.

(** A task that reports its tile as already present or as fetched leaves
    the file of the tile on disk. *)
Lemma worker_ok_file nw r w t u w' :
  worker E args nw r w = (Return (t, u, true), w') ->
  isfile (tile_path args (deref w r)) (fs w') = true.
Proof.
  worker_cases; intros [= <- <- <-].
  - exact Hfile.
  - apply store_saved_file in Hstore as (image & data & _ & _ & Hl).
    apply isfile_lookup. exists data. destruct (Qltb _ _); exact Hl.
Qed.

(** The paths of a tile are not the path of the log. *)
Lemma tile_path_not_log t : tile_path args t <> log_path args.
Proof.
  unfold tile_path, log_path. intros H.
  apply (f_equal (@length string)) in H. rewrite !length_app in H.
  simpl in H. lia.
Qed.

Lemma tile_dir_not_log t k : take k (tile_dir args t) <> log_path args.
Proof.
  unfold tile_dir, log_path. intros H.
  apply take_app_last_inv in H. now apply str_int_not_log in H.
Qed.

(** A directory of a tile that could be made can still be made when only
    the log file has changed. *)
Lemma makedirs_tile_dir_same_but t n n' :
  same_but (log_path args) n n' ->
  makedirs (tile_dir args t) n <> None ->
  makedirs (tile_dir args t) n' <> None.
Proof.
  intros (Hf & _) Hmk. eapply makedirs_agree; [|exact Hmk].
  intros k. apply Hf, tile_dir_not_log.
Qed.

Lemma isfile_tile_path_same_but t n n' :
  same_but (log_path args) n n' ->
  isfile (tile_path args t) n' = isfile (tile_path args t) n.
Proof. intros (Hf & _). apply Hf, tile_path_not_log. Qed.

End TaskFacts.

(** ** The pool and the loop *)

Section RunFacts.

Variable E : Env.
Variable args : Args.

Lemma run_tasks_length nw sched : forall futures w,
  length (fst (run_tasks E args nw sched futures w)) = length futures.
Proof.
  induction sched as [|i sched IH]; intros futures w; simpl; [reflexivity|].
  destruct (worker E args nw i w) as [result w1].
  rewrite IH. apply length_insert.
Qed.

(** A property of the world that every task keeps, and a property of the
    results that every task establishes, hold when the pool is done. *)
Lemma run_tasks_inv (I : World -> Prop) (Q : nat -> res outcome -> Prop) nw n :
  (forall i w, I w -> i < n ->
     I (snd (worker E args nw i w)) /\ Q i (fst (worker E args nw i w))) ->
  forall sched futures w,
    Forall (fun i => i < n) sched -> I w ->
    (forall j result, futures !! j = Some (Some result) -> Q j result) ->
    I (snd (run_tasks E args nw sched futures w))
    /\ (forall j result,
          fst (run_tasks E args nw sched futures w) !! j = Some (Some result) ->
          Q j result).
Proof.
  intros Hstep. induction sched as [|i sched IH]; intros futures w Hs HI HQ; simpl.
  - auto.
  - apply Forall_cons in Hs as [Hi Hs].
    destruct (Hstep i w HI Hi) as [HI1 HQ1].
    destruct (worker E args nw i w) as [result w1]; simpl in *.
    apply IH; auto.
    intros j result' Hj.
    destruct (decide (i = j)) as [->|Hne].
    + destruct (decide (j < length futures)) as [Hlt|Hge].
      * rewrite list_lookup_insert_eq in Hj by exact Hlt. now inversion Hj; subst.
      * rewrite list_insert_ge in Hj by lia. eauto.
    + rewrite list_lookup_insert_ne in Hj by exact Hne. eauto.
Qed.

Lemma run_tasks_filled nw sched : forall futures w j,
  filled futures j -> filled (fst (run_tasks E args nw sched futures w)) j.
Proof.
  induction sched as [|i sched IH]; intros futures w j Hj; simpl; [exact Hj|].
  destruct (worker E args nw i w) as [result w1].
  apply IH. destruct Hj as [result' Hj].
  destruct (decide (i = j)) as [->|Hne].
  - exists result. apply list_lookup_insert_eq. eapply lookup_lt_Some; eauto.
  - exists result'. now rewrite list_lookup_insert_ne.
Qed.

(** Every task of the schedule has its future completed. *)
Lemma run_tasks_complete nw sched : forall futures w j,
  In j sched -> j < length futures ->
  filled (fst (run_tasks E args nw sched futures w)) j.
Proof.
  induction sched as [|i sched IH]; intros futures w j Hin Hlt; simpl; [easy|].
  destruct (worker E args nw i w) as [result w1].
  destruct Hin as [->|Hin].
  - apply run_tasks_filled. exists result. now apply list_lookup_insert_eq.
  - apply IH; [exact Hin|]. now rewrite length_insert.
Qed.

Lemma returned_replicate n : returned (replicate n None) = [].
Proof. induction n as [|n IH]; [reflexivity|exact IH]. Qed.

Lemma fetched_insert i result : forall futures,
  futures !! i = Some None ->
  length (List.filter fetched (returned (<[i := Some result]> futures)))
  = length (List.filter fetched (returned futures))
    + match result with
      | Return o => if fetched o then 1 else 0
      | Raise _ => 0
      end.
Proof.
  induction i as [|i IH]; intros [|x futures]; simpl; try discriminate.
  - intros [= ->]. destruct result as [o|e]; simpl; [|lia].
    destruct (fetched o); simpl; lia.
  - intros H. specialize (IH _ H).
    destruct x as [[o|e]|]; simpl; auto.
    destruct (fetched o); simpl; lia.
Qed.

(** The counter moves by the number of tiles fetched and saved. *)
Lemma run_tasks_progress nw sched : forall futures w,
  NoDup sched ->
  (forall i, In i sched -> futures !! i = Some None) ->
  progress (snd (run_tasks E args nw sched futures w))
  + length (List.filter fetched (returned futures))
  = progress w
    + length (List.filter fetched
                (returned (fst (run_tasks E args nw sched futures w)))).
Proof.
  induction sched as [|i sched IH]; intros futures w Hnd Hnone; simpl; [lia|].
  apply NoDup_cons in Hnd as [Hi Hnd].
  destruct (worker E args nw i w) as [result w1] eqn:Hw.
  apply worker_progress in Hw.
  specialize (IH (<[i := Some result]> futures) w1 Hnd).
  rewrite fetched_insert in IH by (apply Hnone; now left).
  assert (Hrest : forall j, In j sched -> <[i := Some result]> futures !! j = Some None).
  { intros j Hj. rewrite list_lookup_insert_ne.
    - apply Hnone. now right.
    - intros ->. apply Hi. now apply list_elem_of_In. }
  specialize (IH Hrest). lia.
Qed.

Lemma futures_eq (g : nat -> res outcome) :
  forall n (futures : list (option (res outcome))) a,
  length futures = n ->
  (forall j, j < n -> futures !! j = Some (Some (g (a + j)))) ->
  futures = map (fun j => Some (g j)) (seq a n).
Proof.
  induction n as [|n IH]; intros [|x futures] a Hlen Hall; simpl in *;
    try discriminate; [reflexivity|].
  f_equal.
  - specialize (Hall 0 ltac:(lia)). simpl in Hall.
    rewrite Nat.add_0_r in Hall. congruence.
  - apply IH; [lia|]. intros j Hj.
    specialize (Hall (S j) ltac:(lia)). simpl in Hall.
    now rewrite Nat.add_succ_r in Hall.
Qed.

Lemma schedule_bounds sched n :
  Permutation sched (seq 0 n) -> Forall (fun i => i < n) sched.
Proof.
  intros Hp. apply Forall_forall. intros i Hi.
  apply list_elem_of_In in Hi.
  apply (Permutation_in _ Hp), in_seq in Hi. lia.
Qed.

Lemma schedule_covers sched n j :
  Permutation sched (seq 0 n) -> j < n -> In j sched.
Proof.
  intros Hp Hj. apply (Permutation_in _ (Permutation_sym Hp)), in_seq. lia.
Qed.

(** A pool whose every task ends as [g i] says for the tile [i], by an
    outcome or by an exception, and keeps [I]. *)
Lemma executor_map_determined (I : World -> Prop) (g : nat -> res outcome) sched w :
  Permutation sched (seq 0 (length (heap w))) ->
  I w ->
  (forall i w0, I w0 -> i < length (heap w) ->
     I (snd (worker E args (args_rate args) i w0))
     /\ fst (worker E args (args_rate args) i w0) = g i) ->
  fst (executor_map E args sched w)
  = map (fun j => Some (g j)) (seq 0 (length (heap w)))
  /\ I (snd (executor_map E args sched w)).
Proof.
  intros Hp HI Hstep. unfold executor_map.
  set (n := length (heap w)) in *.
  pose proof (run_tasks_inv I (fun j x => x = g j) (args_rate args) n
                Hstep sched (replicate n None) w
                (schedule_bounds _ _ Hp) HI) as [HI' HQ].
  { intros j x Hj. apply lookup_replicate in Hj as [Hj _]. discriminate. }
  split; [|exact HI'].
  apply futures_eq.
  - now rewrite run_tasks_length, length_replicate.
  - intros j Hj.
    destruct (run_tasks_complete (args_rate args) sched (replicate n None) w j)
      as [x Hx].
    + eapply schedule_covers; eauto.
    + now rewrite length_replicate.
    + rewrite Hx. now rewrite (HQ _ _ Hx).
Qed.

(** A pool whose every task returns the outcome [g i] for the tile [i],
    and keeps [I]. *)
Lemma executor_map_uniform (I : World -> Prop) (g : nat -> outcome) sched w :
  Permutation sched (seq 0 (length (heap w))) ->
  I w ->
  (forall i w0, I w0 -> i < length (heap w) ->
     I (snd (worker E args (args_rate args) i w0))
     /\ fst (worker E args (args_rate args) i w0) = Return (g i)) ->
  fst (executor_map E args sched w)
  = map (fun j => Some (Return (g j))) (seq 0 (length (heap w)))
  /\ I (snd (executor_map E args sched w)).
Proof.
  intros Hp HI Hstep.
  exact (executor_map_determined I (fun j => Return (g j)) sched w Hp HI Hstep).
Qed.

(** When the pool is done every future is completed. *)
Lemma executor_map_filled sched w j :
  Permutation sched (seq 0 (length (heap w))) ->
  j < length (heap w) ->
  filled (fst (executor_map E args sched w)) j.
Proof.
  intros Hp Hj. unfold executor_map. apply run_tasks_complete.
  - eapply schedule_covers; eauto.
  - now rewrite length_replicate.
Qed.

Lemma executor_map_length sched w :
  length (fst (executor_map E args sched w)) = length (heap w).
Proof. unfold executor_map. now rewrite run_tasks_length, length_replicate. Qed.

(** What every task keeps, the pool keeps. *)
Lemma run_tasks_preserves (P : World -> Prop) nw sched :
  (forall i w, P w -> P (snd (worker E args nw i w))) ->
  forall futures w, P w -> P (snd (run_tasks E args nw sched futures w)).
Proof.
  intros Hstep. induction sched as [|i sched IH]; intros futures w HP; simpl; auto.
  specialize (Hstep i w HP).
  destruct (worker E args nw i w) as [x w1]. now apply IH.
Qed.

Lemma executor_map_heap sched w :
  heap (snd (executor_map E args sched w)) = heap w.
Proof.
  unfold executor_map.
  apply (run_tasks_preserves (fun w0 => heap w0 = heap w)); [|reflexivity].
  intros i w0 H0. now rewrite worker_heap.
Qed.

Lemma executor_map_logfile sched w :
  logfile (snd (executor_map E args sched w)) = logfile w.
Proof.
  unfold executor_map.
  apply (run_tasks_preserves (fun w0 => logfile w0 = logfile w)); [|reflexivity].
  intros i w0 H0. now rewrite worker_logfile.
Qed.

(** Every future that holds a result holds the result of a task. *)
Lemma executor_map_results sched w j x :
  Permutation sched (seq 0 (length (heap w))) ->
  fst (executor_map E args sched w) !! j = Some (Some x) ->
  exists w1, fst (worker E args (args_rate args) j w1) = x
             /\ heap w1 = heap w /\ logfile w1 = logfile w.
Proof.
  intros Hp Hj. unfold executor_map in Hj.
  set (n := length (heap w)) in *.
  pose proof (run_tasks_inv
                (fun w0 => heap w0 = heap w /\ logfile w0 = logfile w)
                (fun j x => exists w1,
                     fst (worker E args (args_rate args) j w1) = x
                     /\ heap w1 = heap w /\ logfile w1 = logfile w)
                (args_rate args) n) as Hinv.
  destruct (Hinv
              ltac:(intros i w0 [Hh Hl] _; split;
                    [split; [now rewrite worker_heap
                            |now rewrite worker_logfile]
                    |exists w0; auto])
              sched (replicate n None) w
              (schedule_bounds _ _ Hp) (conj eq_refl eq_refl)) as [_ HQ].
  { intros i y Hi. apply lookup_replicate in Hi as [Hi _]. discriminate. }
  exact (HQ _ _ Hj).
Qed.

Lemma returned_filter_insert (f : outcome -> bool) i result :
  forall futures : list (option (res outcome)),
  futures !! i = Some None ->
  length (List.filter f (returned (<[i := Some result]> futures)))
  = length (List.filter f (returned futures))
    + match result with
      | Return o => if f o then 1 else 0
      | Raise _ => 0
      end.
Proof.
  induction i as [|i IH]; intros [|x futures]; simpl; try discriminate.
  - intros [= ->]. destruct result as [o|e]; simpl; [|lia].
    destruct (f o); simpl; lia.
  - intros H. specialize (IH _ H).
    destruct x as [[o|e]|]; simpl; auto.
    destruct (f o); simpl; lia.
Qed.

Lemma raised_insert i result :
  forall futures : list (option (res outcome)),
  futures !! i = Some None ->
  length (raised (<[i := Some result]> futures))
  = length (raised futures)
    + match result with
      | Return _ => 0
      | Raise _ => 1
      end.
Proof.
  induction i as [|i IH]; intros [|x futures]; simpl; try discriminate.
  - intros [= ->]. destruct result as [o|e]; simpl; lia.
  - intros H. specialize (IH _ H).
    destruct x as [[o|e]|]; simpl; auto.
Qed.

Lemma returned_raised_length (f : outcome -> bool)
    (futures : list (option (res outcome))) :
  length (List.filter f (returned futures)) + length (raised futures)
  <= length futures.
Proof.
  induction futures as [|[[o|e]|] futures IH]; simpl; try lia.
  destruct (f o); simpl; lia.
Qed.

(** The pool makes one request for every outcome that carries a URL, and
    at most one for every task that raised. *)
Lemma run_tasks_requests nw sched : forall futures w,
  NoDup sched ->
  (forall i, In i sched -> futures !! i = Some None) ->
  let futures' := fst (run_tasks E args nw sched futures w) in
  let w' := snd (run_tasks E args nw sched futures w) in
  length (requests (trace w)) + length (List.filter has_url (returned futures'))
  <= length (requests (trace w')) + length (List.filter has_url (returned futures))
  /\ length (requests (trace w'))
     + length (List.filter has_url (returned futures)) + length (raised futures)
     <= length (requests (trace w))
        + length (List.filter has_url (returned futures')) + length (raised futures').
Proof.
  induction sched as [|i sched IH]; intros futures w Hnd Hnone; simpl; [lia|].
  apply NoDup_cons in Hnd as [Hi Hnd].
  destruct (worker_requests E args nw i w) as (k & Hk & Hres).
  destruct (worker E args nw i w) as [result w1] eqn:Hw. simpl in Hk, Hres.
  specialize (IH (<[i := Some result]> futures) w1 Hnd).
  rewrite returned_filter_insert, raised_insert in IH
    by (apply Hnone; now left).
  assert (Hrest : forall j, In j sched -> <[i := Some result]> futures !! j = Some None).
  { intros j Hj. rewrite list_lookup_insert_ne.
    - apply Hnone. now right.
    - intros ->. apply Hi. now apply list_elem_of_In. }
  specialize (IH Hrest). simpl in IH.
  destruct result as [o|e]; [destruct (has_url o)|]; lia.
Qed.

(** When the pool is done, the file of every tile whose task returned [ok]
    is on disk. *)
Lemma run_tasks_ok_files nw sched :
  forall futures w,
    (forall j t u, futures !! j = Some (Some (Return (t, u, true))) ->
                   isfile (tile_path args (deref w j)) (fs w) = true) ->
    forall j t u,
      fst (run_tasks E args nw sched futures w) !! j
      = Some (Some (Return (t, u, true))) ->
      isfile (tile_path args
                (deref (snd (run_tasks E args nw sched futures w)) j))
             (fs (snd (run_tasks E args nw sched futures w))) = true.
Proof.
  induction sched as [|i sched IH]; intros futures w Hinv; simpl; [exact Hinv|].
  destruct (worker E args nw i w) as [x w1] eqn:Hw.
  apply IH. intros j t u Hj.
  assert (Hh : heap w1 = heap w).
  { pose proof (worker_heap E args nw i w) as H. now rewrite Hw in H. }
  assert (Hd : deref w1 j = deref w j) by (unfold deref; now rewrite Hh).
  rewrite Hd.
  destruct (decide (i = j)) as [->|Hne].
  - destruct (decide (j < length futures)) as [Hlt|Hge].
    + rewrite list_lookup_insert_eq in Hj by exact Hlt. injection Hj as ->.
      eapply worker_ok_file; eauto.
    + rewrite list_insert_ge in Hj by lia.
      pose proof (worker_keeps_isfile E args nw j w _ (Hinv _ _ _ Hj)) as H.
      now rewrite Hw in H.
  - rewrite list_lookup_insert_ne in Hj by exact Hne.
    pose proof (worker_keeps_isfile E args nw i w _ (Hinv _ _ _ Hj)) as H.
    now rewrite Hw in H.
Qed.

Lemma partition_classes (outs : list outcome) :
  length outs
  = length (List.filter already_present outs)
    + length (List.filter fetched outs)
    + length (List.filter failed outs).
Proof.
  induction outs as [|[[t [u|]] [|]] outs IH]; simpl; lia.
Qed.

End RunFacts.

Section LoopFacts.

Variable E : Env.
Variable args : Args.

Lemma loop_body_eq o a w :
  loop_body E o a w
  = (if counted o then S a else a,
     if failed o then log (warning_of E w o) w else w).
Proof. now destruct o as [[tile url] ok]. Qed.

Lemma warning_of_heap w w' o :
  heap w' = heap w -> warning_of E w' o = warning_of E w o.
Proof.
  intros H. destruct o as [[tile url] ok]. unfold warning_of, deref. now rewrite H.
Qed.

(** A line of the log changes no file but the file of the log. *)
Lemma log_fs l w q :
  logfile w = Some q -> same_but q (fs w) (fs (log l w)).
Proof.
  intros Hq. unfold log. simpl. rewrite Hq. apply append_file_same_but.
Qed.

Lemma open_log_fs q w : same_but q (fs w) (fs (open_log q w)).
Proof. unfold open_log. simpl. apply append_file_same_but. Qed.

(** The loop only writes to the log: one warning per outcome that is not
    [ok], in the order of the outcomes. *)
Lemma consume_frame futures : forall a w r w',
  consume E futures a w = (r, w') ->
  logfile w' = logfile w /\ heap w' = heap w /\ clock w' = clock w
  /\ trace w' = trace w
  /\ progress w' = progress w /\ preview w' = preview w
  /\ logs w' = logs w ++ map (warning_of E w) (List.filter failed (consumed futures)).
Proof.
  induction futures as [|[[o|e]|] futures IH]; intros a w r w'; simpl.
  1, 3, 4: intros [= <- <-]; rewrite app_nil_r; repeat split; reflexivity.
  rewrite loop_body_eq. intros H. apply IH in H.
  destruct H as (Hlf & Hheap & Hclock & Htrace & Hprog & Hprev & Hlogs).
  destruct (failed o) eqn:Hf; simpl in *.
  - repeat split; try assumption.
    rewrite Hlogs, <- app_assoc. simpl.
    rewrite (map_ext _ (warning_of E w)); [reflexivity|].
    intros o'. now apply warning_of_heap.
  - repeat split; assumption.
Qed.

Lemma consume_fs futures q : forall a w r w',
  consume E futures a w = (r, w') ->
  logfile w = Some q -> same_but q (fs w) (fs w').
Proof.
  induction futures as [|[[o|e]|] futures IH]; intros a w r w'; simpl.
  1, 3, 4: intros [= <- <-] _; apply same_but_refl.
  rewrite loop_body_eq. intros H Hq.
  destruct (failed o).
  - eapply same_but_trans; [apply (log_fs (warning_of E w o) _ _ Hq)|].
    eapply IH; [exact H|exact Hq].
  - eapply IH; eauto.
Qed.

(** When the loop ends normally it has run on every future, and has
    counted the outcomes that pass its test. *)
Lemma consume_return futures : forall a w k w',
  consume E futures a w = (Return k, w') ->
  k = a + length (List.filter counted (consumed futures))
  /\ futures = map (fun o => Some (Return o)) (consumed futures).
Proof.
  induction futures as [|[[o|e]|] futures IH]; intros a w k w'; simpl;
    try discriminate.
  - intros [= <- <-]. split; [lia|reflexivity].
  - rewrite loop_body_eq. intros H. apply IH in H as [-> Hmap].
    destruct (counted o) eqn:Hc; simpl; split; try lia; congruence.
Qed.

(** When the loop is left by an exception, it is the exception of a
    future, or a future was never completed. *)
Lemma consume_raise futures : forall a w e w',
  consume E futures a w = (Raise e, w') ->
  (exists j, futures !! j = Some (Some (Raise e)))
  \/ (e = NeverCompleted /\ exists j, futures !! j = Some None).
Proof.
  induction futures as [|[[o|e0]|] futures IH]; intros a w e w'; simpl.
  - discriminate.
  - rewrite loop_body_eq. intros H.
    apply IH in H as [[j Hj]|[-> [j Hj]]]; [left|right; split; auto];
      exists (S j); exact Hj.
  - intros [= <- <-]. left. now exists 0.
  - intros [= <- <-]. right. split; [reflexivity|]. now exists 0.
Qed.

(** The loop is left by the exception of the first future that holds
    one; it has run on the outcomes before it. *)
Lemma consume_first_raise futures : forall a w j e,
  futures !! j = Some (Some (Raise e)) ->
  (forall i, i < j -> exists o, futures !! i = Some (Some (Return o))) ->
  fst (consume E futures a w) = Raise e
  /\ length (consumed futures) = j.
Proof.
  induction futures as [|x futures IH]; intros a w j e Hj Hbefore;
    [discriminate|].
  destruct j as [|j].
  - injection Hj as ->. simpl. auto.
  - destruct (Hbefore 0 ltac:(lia)) as [o Ho]. injection Ho as ->.
    simpl. rewrite loop_body_eq.
    destruct (IH (if counted o then S a else a)
                 (if failed o then log (warning_of E w o) w else w) j e Hj)
      as [Hc Hl].
    + intros i Hi. apply (Hbefore (S i)). lia.
    + split; [exact Hc|now rewrite Hl].
Qed.

(** Among completed futures of which one holds an exception, there is a
    first that does. *)
Lemma first_raise (futures : list (option (res outcome))) : forall j e,
  (forall i, i < length futures -> filled futures i) ->
  futures !! j = Some (Some (Raise e)) ->
  exists j' e',
    j' <= j /\ futures !! j' = Some (Some (Raise e'))
    /\ forall i, i < j' -> exists o, futures !! i = Some (Some (Return o)).
Proof.
  induction futures as [|x futures IH]; intros j e Hfilled Hj; [discriminate|].
  destruct (Hfilled 0 ltac:(simpl; lia)) as [[o|e0] H0]; injection H0 as ->.
  - destruct j as [|j]; [discriminate|].
    destruct (IH j e) as (j' & e' & Hle & Hj' & Hbefore).
    + intros i Hi. apply (Hfilled (S i)). simpl. lia.
    + exact Hj.
    + exists (S j'), e'. split; [lia|]. split; [exact Hj'|].
      intros [|i] Hi; [eauto|]. apply Hbefore. lia.
  - exists 0, e0. split; [lia|]. split; [reflexivity|]. intros i Hi. lia.
Qed.

(** The loop runs its body on the outcomes [consumed], first to last. *)
Lemma consume_fold futures : forall a w,
  snd (consume E futures a w)
  = snd (fold_left (fun st o => loop_body E o (fst st) (snd st))
                   (consumed futures) (a, w)).
Proof.
  induction futures as [|[[o|e]|] futures IH]; intros a w; simpl; try reflexivity.
  destruct (loop_body E o a w) as [a' w1]. apply IH.
Qed.

(** Futures that hold the outcome of their own tile are consumed in the
    order of the tiles. *)
Lemma consumed_in_order : forall (futures : list (option (res outcome))) a,
  (forall j o, futures !! j = Some (Some (Return o)) -> tile_of o = a + j) ->
  map tile_of (consumed futures) = seq a (length (consumed futures)).
Proof.
  induction futures as [|[[o|e]|] futures IH]; intros a H; simpl; try reflexivity.
  f_equal.
  - rewrite (H 0 o eq_refl). lia.
  - apply IH. intros j o' Hj. rewrite (H (S j) o' Hj). lia.
Qed.

Lemma consumed_returned outs :
  consumed (map (fun o => Some (Return o)) outs) = outs.
Proof. induction outs as [|o outs IH]; simpl; congruence. Qed.

(** The loop ends normally when every future holds an outcome. *)
Lemma consume_returned outs : forall a w,
  exists k w', consume E (map (fun o => Some (Return o)) outs) a w = (Return k, w').
Proof.
  induction outs as [|o outs IH]; intros a w; simpl; [eauto|].
  destruct (loop_body E o a w) as [a' w1]. apply IH.
Qed.

(** What [main] has done when it reaches the pool. *)
Lemma startup_return w u ws :
  startup args w = (Return u, ws) ->
  (exists f, makedirs (args_out args) (fs w) = Some f
             /\ same_but (log_path args) f (fs ws))
  /\ (0 < args_rate args)%Z
  /\ heap ws = heap w /\ clock ws = clock w /\ trace ws = trace w
  /\ progress ws = 0 /\ preview ws = preview w
  /\ logs ws = logs w ++ [Begin (template_text (args_url args))]
  /\ logfile ws = Some (log_path args).
Proof.
  unfold startup. destruct (makedirs _ _) as [f|]; [|discriminate].
  destruct (args_rate args <=? 0)%Z eqn:Hr; [discriminate|].
  intros [= <- <-]. apply Z.leb_gt in Hr.
  split; [|repeat split; auto].
  exists f. split; [reflexivity|].
  change (same_but (log_path args) (fs (set_fs f w))
            (fs (log (Begin (template_text (args_url args)))
                     (open_log (log_path args) (set_fs f w))))).
  eapply same_but_trans; [apply open_log_fs|].
  now apply log_fs.
Qed.

(** [main] reaches the pool when the output directory can be made and the
    rate is positive. *)
Lemma startup_ok w :
  makedirs (args_out args) (fs w) <> None ->
  (0 < args_rate args)%Z ->
  exists ws, startup args w = (Return tt, ws).
Proof.
  intros Hmk Hr. unfold startup.
  destruct (makedirs _ _) as [f|]; [|congruence].
  apply Z.leb_gt in Hr. rewrite Hr. eauto.
Qed.

(** A normal end of [main], stage by stage. *)
Lemma main_return sched w w' :
  main E args sched w = (Return tt, w') ->
  exists k w2,
    consume E (fst (executor_map E args sched (snd (startup args w)))) 0
            (snd (executor_map E args sched (snd (startup args w))))
    = (Return k, w2)
    /\ fst (startup args w) = Return tt
    /\ w' = finish args k w2.
Proof.
  unfold main. destruct (startup args w) as [[[]|e] ws]; [|discriminate].
  simpl. destruct (executor_map E args sched ws) as [futures w1]. simpl.
  destruct (consume E futures 0 w1) as [[k|e] w2]; [|discriminate].
  intros [= <-]. eauto.
Qed.

(** [main], once the statements before the pool have succeeded. *)
Lemma main_after_startup sched w ws :
  startup args w = (Return tt, ws) ->
  main E args sched w
  = match consume E (fst (executor_map E args sched ws)) 0
                  (snd (executor_map E args sched ws)) with
    | (Raise e, w2) => (Raise e, w2)
    | (Return k, w2) => (Return tt, finish args k w2)
    end.
Proof.
  intros Hst. unfold main. rewrite Hst.
  now destruct (executor_map E args sched ws) as [futures w1].
Qed.

(** The pool leaves the log, the preview and the number of tiles alone. *)
Lemma executor_map_frame sched w :
  logs (snd (executor_map E args sched w)) = logs w
  /\ preview (snd (executor_map E args sched w)) = preview w
  /\ length (heap (snd (executor_map E args sched w))) = length (heap w).
Proof.
  unfold executor_map.
  generalize (replicate (length (heap w)) (@None (res outcome))).
  generalize (args_rate args). intros nw.
  revert w. induction sched as [|i sched IH]; intros w futures; simpl; auto.
  destruct (worker E args nw i w) as [x w1] eqn:Hw.
  apply worker_frame in Hw as (Hl & Hp & Hh).
  destruct (IH w1 (<[i := Some x]> futures)) as (Hl1 & Hp1 & Hh1).
  repeat split; congruence.
Qed.

(** The statements after the loop add the summary line when the count is
    not zero, and set the preview; nothing else. *)
Lemma finish_frame k w :
  logfile (finish args k w) = logfile w /\ heap (finish args k w) = heap w
  /\ clock (finish args k w) = clock w /\ trace (finish args k w) = trace w
  /\ progress (finish args k w) = progress w
  /\ logs (finish args k w)
     = logs w ++ match k with O => [] | S _ => [Notice k] end.
Proof.
  unfold finish. destruct k, (truthy (args_leaflet args)); simpl;
    rewrite ?app_nil_r; repeat split; reflexivity.
Qed.

Lemma finish_fs k w q :
  logfile w = Some q -> same_but q (fs w) (fs (finish args k w)).
Proof.
  intros Hq. unfold finish.
  destruct k, (truthy (args_leaflet args)); simpl;
    try apply same_but_refl; apply (log_fs (Notice (S k)) _ _ Hq).
Qed.

Lemma filter_map_all {A B} (f : B -> bool) (g : A -> B) l :
  (forall x, f (g x) = true) -> List.filter f (map g l) = map g l.
Proof.
  intros H. induction l as [|x l IH]; simpl; [reflexivity|].
  now rewrite H, IH.
Qed.

Lemma filter_map_none {A B} (f : B -> bool) (g : A -> B) l :
  (forall x, f (g x) = false) -> List.filter f (map g l) = [].
Proof.
  intros H. induction l as [|x l IH]; simpl; [reflexivity|].
  now rewrite H, IH.
Qed.

Lemma all_returned (futures : list (option (res outcome))) :
  (forall j x, futures !! j = Some x -> exists o, x = Some (Return o)) ->
  futures = map (fun o => Some (Return o)) (consumed futures).
Proof.
  induction futures as [|x futures IH]; intros H; simpl; [reflexivity|].
  destruct (H 0 x eq_refl) as [o ->]. simpl. f_equal.
  apply IH. intros j y Hj. apply (H (S j) y Hj).
Qed.

(** A run in which the task of every tile [i] returns [g i] and keeps
    [I]: [main] ends normally, the loop has counted and logged by the
    outcomes [g 0], [g 1], ... alone. *)
Lemma main_uniform (I : World -> Prop) (g : nat -> outcome) sched w ws :
  startup args w = (Return tt, ws) ->
  Permutation sched (seq 0 (length (heap ws))) ->
  I ws ->
  (forall i w0, I w0 -> i < length (heap ws) ->
     I (snd (worker E args (args_rate args) i w0))
     /\ fst (worker E args (args_rate args) i w0) = Return (g i)) ->
  let outs := map g (seq 0 (length (heap ws))) in
  exists w1 w2,
    I w1
    /\ fst (executor_map E args sched ws) = map (fun o => Some (Return o)) outs
    /\ main E args sched w
       = (Return tt, finish args (length (List.filter counted outs)) w2)
    /\ logfile w2 = logfile w1 /\ heap w2 = heap w1 /\ trace w2 = trace w1
    /\ progress w2 = progress w1
    /\ logs w1 = logs ws
    /\ logs w2 = logs ws ++ map (warning_of E w1) (List.filter failed outs).
Proof.
  intros Hst Hp HI Hstep outs.
  destruct (executor_map_uniform E args I g sched ws Hp HI Hstep) as [Hf HI1].
  destruct (executor_map E args sched ws) as [futures w1] eqn:Hex.
  simpl in Hf, HI1.
  assert (Hfo : futures = map (fun o => Some (Return o)) outs).
  { rewrite Hf. unfold outs. now rewrite map_map. }
  destruct (consume_returned outs 0 w1) as (k & w2 & Hc).
  pose proof (consume_return _ _ _ _ _ Hc) as [Hk _].
  pose proof (consume_frame _ _ _ _ _ Hc)
    as (Hfs & Hh & _ & Ht & Hpr & _ & Hl).
  rewrite consumed_returned in Hk, Hl. simpl in Hk.
  pose proof (executor_map_frame sched ws) as (Hl1 & _). rewrite Hex in Hl1.
  simpl in Hl1.
  exists w1, w2. repeat split; auto.
  - unfold main. rewrite Hst, Hex, Hfo, Hc. now rewrite Hk.
  - now rewrite Hl, Hl1.
Qed.

(** What the statements of [main] keep, [main] keeps. *)
Lemma main_preserves (P : World -> Prop) sched w :
  (forall w0 f, makedirs (args_out args) (fs w0) = Some f -> P w0 -> P (set_fs f w0)) ->
  (forall w0, P w0 -> P (open_log (log_path args) w0)) ->
  (forall w0 l, P w0 -> P (log l w0)) ->
  (forall w0 k, P w0 -> P (set_progress k w0)) ->
  (forall w0 ts, P w0 -> P (set_preview ts w0)) ->
  (forall i w0, P w0 -> P (snd (worker E args (args_rate args) i w0))) ->
  P w -> P (snd (main E args sched w)).
Proof.
  intros Hfs Hopen Hlog Hprog Hprev Hwork HP. unfold main, startup.
  destruct (makedirs (args_out args) (fs w)) as [f|] eqn:Hmk; [|exact HP].
  match goal with
  | |- context [set_progress 0 ?w0] =>
      assert (HPs : P (set_progress 0 w0))
        by (apply Hprog, Hlog, Hopen, (Hfs _ _ Hmk HP));
      generalize dependent (set_progress 0 w0)
  end.
  intros ws HPs.
  destruct (args_rate args <=? 0)%Z; [exact HPs|].
  pose proof (run_tasks_preserves E args P (args_rate args) sched Hwork
                (replicate (length (heap ws)) None) _ HPs) as HP1.
  unfold executor_map.
  destruct (run_tasks _ _ _ _ _ _) as [futures w1]. simpl in HP1.
  assert (HP2 : P (snd (consume E futures 0 w1))).
  { clear -Hlog HP1. revert HP1. generalize 0 at 1. revert w1.
    induction futures as [|[[o|e]|] futures IH]; intros w1 a HP1; simpl; auto.
    rewrite loop_body_eq. apply IH. destruct (failed o); auto. }
  destruct (consume E futures 0 w1) as [[k|e] w2]; simpl in HP2; [|exact HP2].
  simpl. unfold finish.
  destruct k; destruct (truthy (args_leaflet args)); auto.
Qed.

End LoopFacts.


(** * The claims *)

Section Claims.

Variable E : Env.
Variable args : Args.

Lemma caught_false e : e <> OSError -> caught e = false.
Proof. destruct e; simpl; congruence. Qed.

(** The statements of the worker from the URL resolution on, when the
    directory of the tile is made and the file is not there. *)
Lemma worker_resolved nw r w f :
  makedirs (tile_dir args (deref w r)) (fs w) = Some f ->
  isfile (tile_path args (deref w r)) (fs w) = false ->
  let w0 := elapse (dt_prepare E r) (set_fs f w) in
  worker E args nw r w
  = match fst (resolve_url E args r w) with
    | Raise e => (Raise e, w0)
    | Return None => (Return (r, None, false), w0)
    | Return (Some url) =>
        let attempt := length (requests (trace w)) in
        let w1 := elapse (dt_fetch E url attempt)
                         (record (Request url (clock w0)) w0) in
        match fetch_image E url (args_timeout args) attempt with
        | None => (Return (r, Some url, false), w1)
        | Some payload =>
            match store E payload (tile_path args (deref w r)) w1 with
            | (Raise e, w2) => (Raise e, w2)
            | (Return false, w2) => (Return (r, Some url, false), w2)
            | (Return true, w2) =>
                if (args_rate args =? 0)%Z
                then (Raise ZeroDivisionError, elapse (dt_store E r) w2)
                else
                  (Return (r, Some url, true),
                   snd (worker E args nw r w))
            end
        end
    end.
Proof.
  intros Hmk Hfile w0.
  assert (Hres : resolve_url E args r w0 = (fst (resolve_url E args r w), w0)).
  { destruct (resolve_url E args r w0) as [x w1] eqn:H.
    pose proof (resolve_url_world _ _ _ _ _ _ H) as ->. f_equal.
    rewrite <- (resolve_url_fst E args r w w0) by reflexivity. now rewrite H. }
  unfold worker. rewrite Hmk. fold w0.
  replace (isfile (tile_path args (deref w r)) (fs w0)) with false
    by (simpl; now rewrite (makedirs_isfile _ _ _ _ Hmk)).
  rewrite Hres.
  destruct (fst (resolve_url E args r w)) as [[url|]|e]; try reflexivity.
  change (length (requests (trace w0))) with (length (requests (trace w))).
  cbv zeta.
  destruct (fetch_image E url (args_timeout args) (length (requests (trace w))));
    [|reflexivity].
  destruct (store _ _ _ _) as [[[]|e] w2]; try reflexivity.
  destruct (args_rate args =? 0)%Z; reflexivity.
Qed.

(** C1. With the service type TMS no URL is resolved at all: the branch
    assigns the flipped coordinate to [tile.y], the tiles are named tuples,
    and the assignment raises [AttributeError] before the template is
    formatted.  The tile is left as it was, but the task of every tile that
    is not on disk yet raises, without a request, and so does [main] as soon
    as one tile of the list is not on disk. *)
Theorem tms_assignment_raises :
  args_type args = "TMS" ->
  (forall r w, resolve_url E args r w = (Raise AttributeError, w))
  /\ (forall nw r w,
        makedirs (tile_dir args (deref w r)) (fs w) <> None ->
        isfile (tile_path args (deref w r)) (fs w) = false ->
        fst (worker E args nw r w) = Raise AttributeError
        /\ trace (snd (worker E args nw r w)) = trace w
        /\ heap (snd (worker E args nw r w)) = heap w)
  /\ (forall sched w,
        Permutation sched (seq 0 (length (heap w))) ->
        (0 < args_rate args)%Z ->
        makedirs (args_out args) (fs w) <> None ->
        (forall r t, heap w !! r = Some t ->
                     makedirs (tile_dir args t) (fs w) <> None) ->
        (exists r t, heap w !! r = Some t
                     /\ isfile (tile_path args t) (fs w) = false) ->
        fst (main E args sched w) = Raise AttributeError
        /\ trace (snd (main E args sched w)) = trace w
        /\ heap (snd (main E args sched w)) = heap w).
Proof.
  intros Hty.
  assert (Hworker : forall nw r w f,
             makedirs (tile_dir args (deref w r)) (fs w) = Some f ->
             isfile (tile_path args (deref w r)) (fs w) = false ->
             worker E args nw r w
             = (Raise AttributeError, elapse (dt_prepare E r) (set_fs f w))).
  { intros nw r w f Hm Hfile.
    rewrite (worker_resolved nw r w f Hm Hfile).
    now rewrite (resolve_url_tms E args r w Hty). }
  split; [intros r w; now apply resolve_url_tms|]. split.
  - intros nw r w Hmk Hfile.
    destruct (makedirs _ _) as [f|] eqn:Hm; [|congruence].
    rewrite (Hworker _ _ _ _ Hm Hfile). simpl. auto.
  - intros sched w Hp Hrate Hout Hdirs (r0 & t0 & Hr0 & Habsent).
    destruct (startup_ok args w Hout Hrate) as [ws Hst].
    pose proof (startup_return _ _ _ _ Hst)
      as ((f & Hmk & Hsb) & _ & Hh & _ & Htr & _).
    set (present := fun i => isfile (tile_path args (deref w i)) (fs w)).
    set (g := fun i : nat => if present i then @Return outcome (i, None, true)
                             else @Raise outcome AttributeError).
    pose (I := fun w0 : World =>
                 (forall p, isfile p (fs w0) = isfile p (fs ws))
                 /\ heap w0 = heap w /\ trace w0 = trace w).
    assert (Hfiles : forall t,
               isfile (tile_path args t) (fs ws) = isfile (tile_path args t) (fs w)).
    { intros t. rewrite (isfile_tile_path_same_but args t _ _ Hsb).
      apply (makedirs_isfile _ _ _ _ Hmk). }
    destruct (executor_map_determined E args I g sched ws) as [Hfut HI1].
    + now rewrite Hh.
    + unfold I. auto.
    + intros i w0 (Hf0 & Hh0 & Ht0) Hi. rewrite Hh in Hi.
      destruct (lookup_lt_is_Some_2 (heap w) i Hi) as [t Hti].
      assert (Ht : deref w0 i = t) by (unfold deref; now rewrite Hh0, Hti).
      assert (Ht' : deref w i = t) by (unfold deref; now rewrite Hti).
      unfold g, present. rewrite Ht'.
      destruct (isfile (tile_path args t) (fs w)) eqn:Hfile.
      * assert (Hpres : isfile (tile_path args (deref w0 i)) (fs w0) = true)
          by (now rewrite Ht, Hf0, Hfiles).
        rewrite (worker_present _ _ _ _ _ Hpres). simpl.
        unfold I. simpl. auto.
      * destruct (makedirs (tile_dir args (deref w0 i)) (fs w0)) as [f'|] eqn:Hm.
        2: { exfalso. rewrite Ht in Hm. revert Hm.
             apply (makedirs_same_files _ (fs ws)); [exact Hf0|].
             apply (makedirs_tile_dir_same_but args t f); [exact Hsb|].
             apply (makedirs_same_files _ (fs w));
               [intros p; apply (makedirs_isfile _ _ _ _ Hmk)|].
             eapply Hdirs; eauto. }
        rewrite (Hworker _ _ _ _ Hm) by (now rewrite Ht, Hf0, Hfiles).
        unfold I. simpl. repeat split; auto.
        intros p. rewrite (makedirs_isfile _ _ _ _ Hm). apply Hf0.
    + rewrite Hh in Hfut.
      set (futures := fst (executor_map E args sched ws)) in *.
      assert (Hlook : forall j, j < length (heap w) ->
                                futures !! j = Some (Some (g j))).
      { intros j Hj. rewrite Hfut, list_lookup_fmap, lookup_seq_lt by exact Hj.
        reflexivity. }
      assert (Hr0lt : r0 < length (heap w)) by (eapply lookup_lt_Some; eauto).
      assert (Hraise : futures !! r0 = Some (Some (Raise AttributeError))).
      { rewrite (Hlook r0 Hr0lt). unfold g, present, deref.
        now rewrite Hr0, Habsent. }
      destruct (first_raise futures r0 AttributeError) as (j & e & Hle & Hj & Hbefore).
      * intros i Hi. rewrite Hfut, length_map, length_seq in Hi.
        exists (g i). now apply Hlook.
      * exact Hraise.
      * assert (He : e = AttributeError).
        { rewrite (Hlook j ltac:(lia)) in Hj. unfold g in Hj.
          destruct (present j); congruence. }
        subst e.
        destruct (consume_first_raise E futures 0
                    (snd (executor_map E args sched ws)) j AttributeError Hj Hbefore)
          as [Hc _].
        rewrite (main_after_startup E args sched w ws Hst). fold futures.
        destruct (consume E futures 0 (snd (executor_map E args sched ws)))
          as [[k|e] w2] eqn:Hcon; simpl in Hc; [discriminate|].
        injection Hc as ->.
        apply consume_frame in Hcon as (_ & Hh2 & _ & Ht2 & _).
        destruct HI1 as (_ & Hh1 & Ht1). simpl.
        repeat split; congruence.
Qed.

(** C2. A tile whose file [out/z/x/y.ext] is there when its task runs
    gets the outcome [(tile, None, True)]; the worker makes no request,
    does not sleep, and changes neither the files nor the tile nor the
    counter.  Hence a run over a directory in which every tile is there
    ends normally with every outcome of that form, no request and no sleep,
    and reports all the tiles as already downloaded. *)
Theorem already_present_skips_network :
  (forall nw r w,
      isfile (tile_path args (deref w r)) (fs w) = true ->
      fst (worker E args nw r w) = Return (r, None, true)
      /\ trace (snd (worker E args nw r w)) = trace w
      /\ fs (snd (worker E args nw r w)) = fs w
      /\ heap (snd (worker E args nw r w)) = heap w
      /\ progress (snd (worker E args nw r w)) = progress w)
  /\ (forall sched w,
        Permutation sched (seq 0 (length (heap w))) ->
        (0 < args_rate args)%Z ->
        makedirs (args_out args) (fs w) <> None ->
        (forall r t, heap w !! r = Some t ->
                     isfile (tile_path args t) (fs w) = true) ->
        fst (main E args sched w) = Return tt
        /\ fst (executor_map E args sched (snd (startup args w)))
           = map (fun r => Some (Return (r, None, true)))
                 (seq 0 (length (heap w)))
        /\ trace (snd (main E args sched w)) = trace w
        /\ logs (snd (main E args sched w))
           = logs w ++ Begin (template_text (args_url args))
                    :: match length (heap w) with
                       | O => []
                       | S _ => [Notice (length (heap w))]
                       end).
Proof.
  split.
  - intros nw r w Hf. rewrite (worker_present _ _ _ _ _ Hf). simpl. auto.
  - intros sched w Hp Hrate Hout Hall.
    destruct (startup_ok args w Hout Hrate) as [ws Hst].
    pose proof (startup_return _ _ _ _ Hst)
      as ((f & Hmk & Hsb) & _ & Hh & _ & Htr & _ & _ & Hlog & _).
    pose (I := fun w0 : World =>
                 fs w0 = fs ws /\ heap w0 = heap w /\ trace w0 = trace w).
    destruct (main_uniform E args I (fun r => (r, None, true)) sched w ws Hst)
      as (w1 & w2 & (_ & _ & Ht1) & Hfut & Hmain & _ & _ & Ht2 & _ & _ & Hl2).
    + now rewrite Hh.
    + now unfold I.
    + intros i w0 (Hf0 & Hh0 & Ht0) Hi. rewrite Hh in Hi.
      destruct (lookup_lt_is_Some_2 (heap w) i Hi) as [t Hti].
      assert (Hpres : isfile (tile_path args (deref w0 i)) (fs w0) = true).
      { unfold deref. rewrite Hh0, Hti, Hf0.
        rewrite (isfile_tile_path_same_but args t _ _ Hsb).
        rewrite (makedirs_isfile _ _ _ _ Hmk). eauto. }
      rewrite (worker_present _ _ _ _ _ Hpres). simpl.
      unfold I. simpl. auto.
    + rewrite (filter_map_all counted) in Hmain by reflexivity.
      rewrite (filter_map_none failed) in Hl2 by reflexivity.
      rewrite length_map, length_seq in Hmain.
      simpl in Hl2. rewrite app_nil_r in Hl2.
      rewrite Hh in Hmain, Hfut.
      rewrite Hst. simpl snd. rewrite Hmain. simpl fst. simpl snd.
      pose proof (finish_frame args (length (heap w)) w2)
        as (_ & _ & _ & Htf & _ & Hlf).
      repeat split; auto.
      * rewrite Hfut. now rewrite map_map.
      * rewrite Htf, Ht2. exact Ht1.
      * rewrite Hlf, Hl2, Hlog. now rewrite <- app_assoc.
Qed.

(** C3, as amended.  An unsupported service type, a fetch without a
    response, and a payload for which [Image.open] or [image.save] raises
    [OSError] each give an outcome that is not [ok]; they are not raised.
    What else goes wrong in a task is not caught: the [OSError] of
    [os.makedirs] for the directory of the tile, an exception raised while
    the URL is resolved for a supported type, an exception of [Image.open]
    or [image.save] that is not an [OSError]; and a task raises for nothing
    else, but for a division by a rate of zero.  [main] fails when the
    output directory cannot be created; and once the statements before the
    pool have succeeded, [main] returns exactly when every task has returned
    an outcome, whatever the [ok] flags: the exception of a task is raised
    again by the loop, that of the first such task in submission order, and
    ends [main]. *)
Theorem per_tile_failures_become_outcomes :
  (forall nw r w,
      makedirs (tile_dir args (deref w r)) (fs w) <> None ->
      isfile (tile_path args (deref w r)) (fs w) = false ->
      let path := tile_path args (deref w r) in
      let attempt := length (requests (trace w)) in
      (supported (args_type args) = false ->
       fst (worker E args nw r w) = Return (r, None, false))
      /\ (forall e,
            fst (resolve_url E args r w) = Raise e ->
            fst (worker E args nw r w) = Raise e)
      /\ (forall url,
            fst (resolve_url E args r w) = Return (Some url) ->
            (fetch_image E url (args_timeout args) attempt = None ->
             fst (worker E args nw r w) = Return (r, Some url, false))
            /\ (forall payload,
                  fetch_image E url (args_timeout args) attempt = Some payload ->
                  (Image_open E payload = Raise OSError ->
                   fst (worker E args nw r w) = Return (r, Some url, false))
                  /\ (forall image left_behind,
                        Image_open E payload = Return image ->
                        Image_save E image path = SaveRaise OSError left_behind ->
                        fst (worker E args nw r w) = Return (r, Some url, false))
                  /\ (forall e,
                        e <> OSError ->
                        Image_open E payload = Raise e ->
                        fst (worker E args nw r w) = Raise e)
                  /\ (forall e image left_behind,
                        e <> OSError ->
                        Image_open E payload = Return image ->
                        Image_save E image path = SaveRaise e left_behind ->
                        fst (worker E args nw r w) = Raise e))))
  /\ (forall nw r w,
        makedirs (tile_dir args (deref w r)) (fs w) = None ->
        fst (worker E args nw r w) = Raise OSError)
  /\ (forall nw r w e,
        fst (worker E args nw r w) = Raise e ->
        (e = OSError /\ makedirs (tile_dir args (deref w r)) (fs w) = None)
        \/ (fst (resolve_url E args r w) = Raise e
            /\ supported (args_type args) = true)
        \/ (e <> OSError /\ exists payload, Image_open E payload = Raise e)
        \/ (e <> OSError
            /\ exists image left_behind,
                 Image_save E image (tile_path args (deref w r))
                 = SaveRaise e left_behind)
        \/ (e = ZeroDivisionError /\ args_rate args = 0%Z))
  /\ (forall sched w,
        makedirs (args_out args) (fs w) = None ->
        fst (main E args sched w) = Raise OSError)
  /\ (forall sched w,
        Permutation sched (seq 0 (length (heap w))) ->
        fst (startup args w) = Return tt ->
        let futures := fst (executor_map E args sched (snd (startup args w))) in
        (fst (main E args sched w) = Return tt
         <-> forall j, j < length (heap w) ->
                       exists o, futures !! j = Some (Some (Return o)))
        /\ (forall j e,
              futures !! j = Some (Some (Raise e)) ->
              exists j' e',
                j' <= j /\ futures !! j' = Some (Some (Raise e'))
                /\ (forall i, i < j' ->
                      exists o, futures !! i = Some (Some (Return o)))
                /\ fst (main E args sched w) = Raise e')
        /\ (forall e,
              fst (main E args sched w) = Raise e ->
              exists j w1,
                futures !! j = Some (Some (Raise e))
                /\ fst (worker E args (args_rate args) j w1) = Raise e)).
Proof.
  split; [|split; [|split; [|split]]].
  - (* what a task does once its directory is made *)
    intros nw r w Hmk Hfile path attempt.
    destruct (makedirs (tile_dir args (deref w r)) (fs w)) as [f|] eqn:Hm;
      [|congruence].
    pose proof (worker_resolved nw r w f Hm Hfile) as Hw. cbv zeta in Hw.
    fold path attempt in Hw.
    split; [|split].
    + intros Hty. rewrite Hw, resolve_url_unsupported by exact Hty. reflexivity.
    + intros e He. rewrite Hw, He. reflexivity.
    + intros url Hurl. rewrite Hurl in Hw. split.
      * intros Hfetch. rewrite Hw, Hfetch. reflexivity.
      * intros payload Hfetch. rewrite Hfetch in Hw.
        match type of Hw with
        | context [store E payload path ?w1] =>
            set (ws := w1) in *;
            destruct (store E payload path ws) as [b w2] eqn:Hstore
        end.
        split; [|split; [|split]].
        -- intros Hopen. rewrite (store_open_failed _ _ _ _ _ Hopen) in Hstore.
           injection Hstore as <- <-. now rewrite Hw.
        -- intros image lb Hopen Hsave.
           pose proof (store_save_raised E payload path ws image OSError lb
                         Hopen Hsave) as Hs.
           rewrite Hstore in Hs. simpl in Hs. subst b. now rewrite Hw.
        -- intros e Hne Hopen.
           rewrite (store_open_failed _ _ _ _ _ Hopen) in Hstore.
           rewrite (caught_false e Hne) in Hstore.
           injection Hstore as <- <-. now rewrite Hw.
        -- intros e image lb Hne Hopen Hsave.
           pose proof (store_save_raised E payload path ws image e lb
                         Hopen Hsave) as Hs.
           rewrite Hstore, (caught_false e Hne) in Hs. simpl in Hs. subst b.
           now rewrite Hw.
  - (* the directory of the tile cannot be made *)
    intros nw r w Hmk. now rewrite worker_makedirs_failed.
  - (* nothing else is raised *)
    intros nw r w e.
    destruct (worker E args nw r w) as [x w'] eqn:Hw. simpl. intros ->.
    revert Hw. worker_cases; intros [= <- <-].
    + right; right; right; right. split; [reflexivity|]. now apply Z.eqb_eq.
    + apply store_raise in Hstore as [Hc [Hopen|(image & lb & _ & Hsave)]].
      * right; right; left. split; [|eauto]. intros ->. discriminate.
      * right; right; right; left. split; [|eauto]. intros ->. discriminate.
    + right; left.
      pose proof (resolve_url_raise_supported _ _ _ _ _ _ Hres) as Hs.
      split; [|exact Hs].
      rewrite <- (resolve_url_fst E args r w
                    (elapse (dt_prepare E r) (set_fs f w))) by reflexivity.
      now rewrite Hres.
    + left. auto.
  - (* the output directory cannot be made *)
    intros sched w Hmk. unfold main, startup. now rewrite Hmk.
  - (* the pool and the loop *)
    intros sched w Hp Hs futures.
    destruct (startup args w) as [[[]|e0] ws] eqn:Hst; [|discriminate].
    simpl in futures.
    pose proof (startup_return _ _ _ _ Hst) as (_ & _ & Hh & _).
    assert (Hlen : length futures = length (heap w)).
    { unfold futures. now rewrite executor_map_length, Hh. }
    assert (Hfilled : forall i, i < length futures -> filled futures i).
    { intros i Hi. apply executor_map_filled; [now rewrite Hh|].
      rewrite Hh. lia. }
    assert (Hfirst : forall j e,
               futures !! j = Some (Some (Raise e)) ->
               exists j' e',
                 j' <= j /\ futures !! j' = Some (Some (Raise e'))
                 /\ (forall i, i < j' ->
                       exists o, futures !! i = Some (Some (Return o)))
                 /\ fst (main E args sched w) = Raise e').
    { intros j e Hj.
      destruct (first_raise futures j e Hfilled Hj)
        as (j' & e' & Hle & Hj' & Hbefore).
      exists j', e'. repeat split; auto.
      destruct (consume_first_raise E futures 0
                  (snd (executor_map E args sched ws)) j' e' Hj' Hbefore)
        as [Hc _].
      rewrite (main_after_startup E args sched w ws Hst). fold futures.
      destruct (consume E futures 0 (snd (executor_map E args sched ws)))
        as [[k|e1] w2]; simpl in Hc |- *; [discriminate|]. congruence. }
    split; [split|split; [exact Hfirst|]].
    + intros Hm j Hj.
      destruct (Hfilled j ltac:(lia)) as [[o|e] Hx]; [eauto|].
      destruct (Hfirst j e Hx) as (j' & e' & _ & _ & _ & Hr). congruence.
    + intros Hall.
      rewrite (main_after_startup E args sched w ws Hst). fold futures.
      rewrite (all_returned futures).
      * destruct (consume_returned E (consumed futures) 0
                    (snd (executor_map E args sched ws))) as (k & w2 & ->).
        reflexivity.
      * intros j x Hj.
        destruct (Hall j) as [o Ho];
          [rewrite <- Hlen; eapply lookup_lt_Some; eauto|].
        exists o. congruence.
    + intros e Hm.
      rewrite (main_after_startup E args sched w ws Hst) in Hm. fold futures in Hm.
      destruct (consume E futures 0 (snd (executor_map E args sched ws)))
        as [[k|e1] w2] eqn:Hc; simpl in Hm; [discriminate|].
      injection Hm as ->.
      apply consume_raise in Hc as [[j Hj]|[-> [j Hj]]].
      * destruct (executor_map_results E args sched ws j (Raise e))
          as (w1 & Hw1 & _); [now rewrite Hh|exact Hj|]. eauto.
      * exfalso. destruct (Hfilled j) as [x Hx];
          [eapply lookup_lt_Some; eauto|]. congruence.
Qed.



(** C5, as amended. For a tile that was fetched and saved, the elapsed
    time is measured from the entry of the worker ([tick] is its first
    statement, before the directory is created and the file looked for),
    the interval is [num_workers / args.rate] with [num_workers] the
    configured rate, hence 1, and the worker sleeps the difference exactly
    when the elapsed time is below the interval. *)
Theorem pacing_from_worker_entry r w t u w' :
  worker E args (args_rate args) r w = (Return (t, Some u, true), w') ->
  let tick := clock w in
  let attempt := length (requests (trace w)) in
  let issued := (clock w + dt_prepare E r)%Q in
  let tock :=
    (clock w + dt_prepare E r + dt_fetch E u attempt + dt_store E r)%Q in
  let interval := (inject_Z (args_rate args) / inject_Z (args_rate args))%Q in
  (interval == 1)%Q
  /\ ((tock - tick < interval)%Q ->
      trace w' = Sleep (interval - (tock - tick)) :: Request u issued :: trace w)
  /\ (~ (tock - tick < interval)%Q ->
      trace w' = Request u issued :: trace w).
Proof.
  worker_cases; intros [= <- <- <-]; simpl.
  apply resolve_url_frame in Hres as (_ & Hc1 & Ht1 & _). simpl in Hc1, Ht1.
  apply store_frame in Hstore as (_ & Hc2 & Ht2 & _). simpl in Hc2, Ht2.
  rewrite Ht1 in Hc2. rewrite Hc2, Hc1.
  split; [|split].
  - apply Z.eqb_neq in Hrate. unfold Qdiv. apply Qmult_inv_r.
    unfold Qeq. simpl. lia.
  - intros Hlt. apply Qltb_lt in Hlt. rewrite Hlt. simpl.
    now rewrite Ht2, Ht1, Hc1.
  - intros Hge. destruct (Qltb _ _) eqn:Hlt.
    + apply Qltb_lt in Hlt. contradiction.
    + simpl. now rewrite Ht2, Ht1, Hc1.
Qed.

(** C6, as amended. The progress indicator is advanced exactly once for
    every tile that was fetched and saved, and never for a tile that was
    already present or that failed, with or without a network attempt:
    each task moves the counter by one if its outcome is [(tile, url, True)]
    with a URL and by nothing otherwise, so that when the pool is done, and
    when [main] returns, the counter is the number of such outcomes. *)
Theorem progress_counts_fetched sched w :
  Permutation sched (seq 0 (length (heap w))) ->
  (forall nw r w1 x w2,
      worker E args nw r w1 = (x, w2) ->
      progress w2 = progress w1
                    + match x with
                      | Return o => if fetched o then 1 else 0
                      | Raise _ => 0
                      end)
  /\ progress (snd (executor_map E args sched w))
     = progress w
       + length (List.filter fetched (returned (fst (executor_map E args sched w))))
  /\ (forall w',
        main E args sched w = (Return tt, w') ->
        progress w'
        = length (List.filter fetched
                    (returned (fst (executor_map E args sched
                                      (snd (startup args w))))))).
Proof.
  intros Hp.
  assert (Hpool : forall w0, heap w0 = heap w ->
            progress (snd (executor_map E args sched w0))
            = progress w0
              + length (List.filter fetched
                          (returned (fst (executor_map E args sched w0))))).
  { intros w0 Hh. unfold executor_map. rewrite Hh.
    pose proof (run_tasks_progress E args (args_rate args) sched
                  (replicate (length (heap w)) None) w0) as H.
    rewrite returned_replicate in H. simpl in H.
    assert (Hnd : NoDup sched).
    { rewrite Hp. apply NoDup_seq. }
    assert (Hnone : forall i, In i sched ->
              replicate (length (heap w)) (@None (res outcome)) !! i = Some None).
    { intros i Hi. apply (Permutation_in _ Hp), in_seq in Hi.
      apply lookup_replicate. split; [reflexivity|lia]. }
    specialize (H Hnd Hnone). lia. }
  split; [|split].
  - intros nw r w1 x w2. apply worker_progress.
  - now apply Hpool.
  - intros w' Hm. apply main_return in Hm as (k & w2 & Hc & Hs & ->).
    destruct (startup args w) as [[[]|e] ws] eqn:Hst; [|discriminate].
    apply startup_return in Hst as (_ & _ & Hh & _ & _ & Hp0 & _).
    simpl in *. apply consume_frame in Hc as (_ & _ & _ & _ & Hpr & _).
    assert (Hfin : forall a w0, progress (finish args a w0) = progress w0).
    { intros a w0. unfold finish. destruct a, (truthy _); reflexivity. }
    rewrite Hfin, Hpr, (Hpool ws Hh), Hp0. reflexivity.
Qed.

(** C7, as amended. When the service type is none of XYZ, TMS and WMS,
    every tile whose file is not there yet, and whose directory can be
    created, gets the outcome [(tile, None, False)]: the worker raises
    nothing and makes no request, and the loop logs for it one warning
    whose URL is [None].  A run over tiles none of which is there ends
    normally with one such warning per tile, in the order of the tiles.
    (A tile whose file is there is reported as already present whatever
    the service type.) *)
Theorem unknown_type_fails_absent_tile :
  supported (args_type args) = false ->
  (forall nw r w a w0,
      makedirs (tile_dir args (deref w r)) (fs w) <> None ->
      isfile (tile_path args (deref w r)) (fs w) = false ->
      fst (worker E args nw r w) = Return (r, None, false)
      /\ trace (snd (worker E args nw r w)) = trace w
      /\ heap (snd (worker E args nw r w)) = heap w
      /\ loop_body E (r, None, false) a w0
         = (a, log (Warning (str_tile E (deref w0 r)) None) w0)
      /\ render (Warning (str_tile E (deref w0 r)) None)
         = "Warning:" +:+ nl +:+ " " +:+ str_tile E (deref w0 r)
           +:+ " failed, skipping." +:+ nl +:+ " None" +:+ nl)
  /\ (forall sched w,
        Permutation sched (seq 0 (length (heap w))) ->
        (0 < args_rate args)%Z ->
        makedirs (args_out args) (fs w) <> None ->
        (forall r t, heap w !! r = Some t ->
                     makedirs (tile_dir args t) (fs w) <> None
                     /\ isfile (tile_path args t) (fs w) = false) ->
        fst (main E args sched w) = Return tt
        /\ fst (executor_map E args sched (snd (startup args w)))
           = map (fun r => Some (Return (r, None, false)))
                 (seq 0 (length (heap w)))
        /\ trace (snd (main E args sched w)) = trace w
        /\ logs (snd (main E args sched w))
           = logs w ++ Begin (template_text (args_url args))
                    :: map (fun r => Warning (str_tile E (deref w r)) None)
                           (seq 0 (length (heap w)))).
Proof.
  intros Hty.
  assert (Hworker : forall nw r w f,
             makedirs (tile_dir args (deref w r)) (fs w) = Some f ->
             isfile (tile_path args (deref w r)) (fs w) = false ->
             worker E args nw r w
             = (Return (r, None, false), elapse (dt_prepare E r) (set_fs f w))).
  { intros nw r w f Hm Hfile. unfold worker. rewrite Hm. simpl fs.
    rewrite (makedirs_isfile _ _ _ _ Hm), Hfile.
    now rewrite resolve_url_unsupported by exact Hty. }
  split.
  - intros nw r w a w0 Hmk Hfile.
    destruct (makedirs _ _) as [f|] eqn:Hm; [|congruence].
    rewrite (Hworker _ _ _ _ Hm Hfile). simpl. repeat split; reflexivity.
  - intros sched w Hp Hrate Hout Hall.
    destruct (startup_ok args w Hout Hrate) as [ws Hst].
    pose proof (startup_return _ _ _ _ Hst)
      as ((f & Hmk & Hsb) & _ & Hh & _ & Htr & _ & _ & Hlog & _).
    pose (I := fun w0 : World =>
                 (forall p, isfile p (fs w0) = isfile p (fs ws))
                 /\ heap w0 = heap w /\ trace w0 = trace w).
    assert (Hfiles : forall t,
               isfile (tile_path args t) (fs ws) = isfile (tile_path args t) (fs w)).
    { intros t. rewrite (isfile_tile_path_same_but args t _ _ Hsb).
      apply (makedirs_isfile _ _ _ _ Hmk). }
    destruct (main_uniform E args I (fun r => (r, None, false)) sched w ws Hst)
      as (w1 & w2 & (_ & Hh1 & Ht1) & Hfut & Hmain & _ & _ & Ht2 & _ & _ & Hl2).
    + now rewrite Hh.
    + unfold I. auto.
    + intros i w0 (Hf0 & Hh0 & Ht0) Hi. rewrite Hh in Hi.
      destruct (lookup_lt_is_Some_2 (heap w) i Hi) as [t Hti].
      destruct (Hall _ _ Hti) as [Hdir Hfile].
      assert (Ht : deref w0 i = t) by (unfold deref; now rewrite Hh0, Hti).
      destruct (makedirs (tile_dir args (deref w0 i)) (fs w0)) as [f'|] eqn:Hm.
      2: { exfalso. rewrite Ht in Hm. revert Hm.
           apply (makedirs_same_files _ (fs ws)); [exact Hf0|].
           apply (makedirs_tile_dir_same_but args t f); [exact Hsb|].
           apply (makedirs_same_files _ (fs w));
             [intros p; apply (makedirs_isfile _ _ _ _ Hmk)|].
           exact Hdir. }
      rewrite (Hworker _ _ _ _ Hm) by (now rewrite Ht, Hf0, Hfiles).
      unfold I. simpl. repeat split; auto.
      intros p. rewrite (makedirs_isfile _ _ _ _ Hm). apply Hf0.
    + rewrite (filter_map_none counted) in Hmain by reflexivity.
      rewrite (filter_map_all failed) in Hl2 by reflexivity.
      rewrite Hh in Hfut, Hl2.
      rewrite Hst. simpl snd. rewrite Hmain. simpl fst. simpl snd.
      pose proof (finish_frame args 0 w2) as (_ & _ & _ & Htf & _ & Hlf).
      repeat split; auto.
      * rewrite Hfut. now rewrite map_map.
      * rewrite Htf, Ht2. exact Ht1.
      * rewrite Hlf, Hl2, Hlog, app_nil_r. rewrite <- app_assoc. simpl.
        do 2 f_equal. rewrite map_map. apply map_ext.
        intros r. simpl. unfold deref. now rewrite Hh1.
Qed.

(** C8. Whatever the order in which the pool runs the tasks, the future
    at position [j] holds the outcome of the tile submitted at position
    [j], and the loop runs its body on the outcomes from the first position
    on: the sequence it consumes is in the order of submission, and when
    [main] returns it is the whole sequence of tiles. *)
Theorem outcomes_in_submission_order sched w :
  let futures := fst (executor_map E args sched w) in
  length futures = length (heap w)
  /\ (forall j o, futures !! j = Some (Some (Return o)) -> tile_of o = j)
  /\ map tile_of (consumed futures) = seq 0 (length (consumed futures))
  /\ (forall a w1,
        snd (consume E futures a w1)
        = snd (fold_left (fun st o => loop_body E o (fst st) (snd st))
                         (consumed futures) (a, w1)))
  /\ (forall w0 w',
        main E args sched w0 = (Return tt, w') ->
        map tile_of
            (consumed (fst (executor_map E args sched (snd (startup args w0)))))
        = seq 0 (length (heap w0))).
Proof.
  assert (Hown : forall w1 j o,
             fst (executor_map E args sched w1) !! j = Some (Some (Return o)) ->
             tile_of o = j).
  { intros w1 j o Hj. unfold executor_map in Hj.
    set (n := length (heap w1)) in *.
    assert (Hall : forall (futs : list (option (res outcome))) w2,
               (forall i o', futs !! i = Some (Some (Return o')) -> tile_of o' = i) ->
               forall i o',
                 fst (run_tasks E args (args_rate args) sched futs w2) !! i
                 = Some (Some (Return o')) -> tile_of o' = i).
    { clear Hj. induction sched as [|i0 sched IH]; intros futs w2 Hf; simpl; auto.
      destruct (worker E args (args_rate args) i0 w2) as [x w3] eqn:Hw.
      apply IH. intros i o' Hi.
      destruct (decide (i0 = i)) as [->|Hne].
      - destruct (decide (i < length futs)) as [Hlt|Hge].
        + rewrite list_lookup_insert_eq in Hi by exact Hlt.
          injection Hi as ->. destruct o' as [[t u] ok].
          now apply worker_returns_ref in Hw.
        + rewrite list_insert_ge in Hi by lia. eauto.
      - rewrite list_lookup_insert_ne in Hi by exact Hne. eauto. }
    eapply Hall; [|exact Hj].
    intros i o' Hi. apply lookup_replicate in Hi as [Hi _]. discriminate. }
  assert (Hlen : forall w1,
             length (fst (executor_map E args sched w1)) = length (heap w1)).
  { intros w1. unfold executor_map.
    now rewrite run_tasks_length, length_replicate. }
  simpl. split; [apply Hlen|]. split; [apply Hown|].
  split; [apply consumed_in_order; intros j o Hj; now rewrite (Hown _ _ _ Hj)|].
  split; [intros a w1; apply consume_fold|].
  intros w0 w' Hm. apply main_return in Hm as (k & w2 & Hc & Hs & _).
  destruct (startup args w0) as [[[]|e] ws] eqn:Hst; [|discriminate].
  apply startup_return in Hst as (_ & _ & Hh & _). simpl in *.
  apply consume_return in Hc as [_ Hmap].
  rewrite (consumed_in_order _ 0) by (intros j o Hj; now rewrite (Hown _ _ _ Hj)).
  f_equal. rewrite <- Hh, <- Hlen. rewrite Hmap at 2. now rewrite length_map.
Qed.

(** C9, as amended. When [main] returns, the log has grown by the first
    line, one warning for every outcome that is not [ok], and, only when
    the number of tiles counted as already downloaded is not zero, the
    summary line with that number; when the number is zero there is no
    summary line. *)
Theorem summary_only_when_some_present sched w w' :
  main E args sched w = (Return tt, w') ->
  let outs := consumed (fst (executor_map E args sched (snd (startup args w)))) in
  let k := length (List.filter counted outs) in
  let added := Begin (template_text (args_url args))
               :: map (warning_of E w') (List.filter failed outs)
               ++ match k with O => [] | S _ => [Notice k] end in
  logs w' = logs w ++ added
  /\ (forall n, In (Notice n) added <-> n = k /\ k <> 0).
Proof.
  intros Hm outs k added.
  apply main_return in Hm as (k' & w2 & Hc & Hs & ->).
  destruct (startup args w) as [[[]|e] ws] eqn:Hst; [|discriminate].
  apply startup_return in Hst as (_ & _ & _ & _ & _ & _ & _ & Hlog & _).
  simpl in *.
  pose proof (executor_map_frame E args sched ws) as (Hl1 & _).
  pose proof (consume_return _ _ _ _ _ _ Hc) as [Hk _].
  pose proof (consume_frame _ _ _ _ _ _ Hc) as (_ & Hh & _ & _ & _ & _ & Hl2).
  pose proof (finish_frame args k' w2) as (_ & Hhf & _ & _ & _ & Hlf).
  simpl in Hk. fold outs in Hk, Hl2. fold k in Hk. subst k'.
  split.
  - rewrite Hlf, Hl2, Hl1, Hlog. unfold added.
    rewrite <- !app_assoc. simpl. do 2 f_equal.
    f_equal. apply map_ext. intros o. symmetry. apply warning_of_heap.
    now rewrite Hhf, Hh.
  - intros n. unfold added. simpl. rewrite in_app_iff, in_map_iff. split.
    + intros [Hb|[(o & Ho & _)|Hn]]; [discriminate| |].
      * destruct o as [[t u] ok]. discriminate.
      * destruct k; [destruct Hn|]. destruct Hn as [[= <-]|[]]. auto.
    + intros [-> Hnz]. right; right. destruct k; [congruence|now left].
Qed.

(** C10. The outcome of a task is [(tile, url, ok)] with [tile] the tile
    submitted and [url] absent exactly when no request was made for it,
    which is when the file was already there or the service type is not a
    known one.  The loop counts an outcome as already downloaded exactly
    when [url] is absent and [ok] holds, and logs a warning exactly when
    [ok] does not hold; nothing else of the outcome enters either decision.
    (The test of the loop is [not url and ok], and an empty URL is false
    too; it never comes with [ok], as no payload is fetched from it.) *)
Theorem outcome_encoding nw r w t u ok w' :
  (forall timeout attempt, fetch_image E "" timeout attempt = None) ->
  worker E args nw r w = (Return (t, u, ok), w') ->
  t = r
  /\ (u = None <-> requests (trace w') = requests (trace w))
  /\ (u = None <->
      isfile (tile_path args (deref w r)) (fs w) = true
      \/ supported (args_type args) = false)
  /\ (counted (t, u, ok) = true <-> u = None /\ ok = true)
  /\ (forall a w0,
        loop_body E (t, u, ok) a w0
        = (if already_present (t, u, ok) then S a else a,
           if ok then w0 else log (Warning (str_tile E (deref w0 t)) u) w0)).
Proof.
  intros Hempty Hw.
  pose proof (worker_returns_ref _ _ _ _ _ _ _ _ _ Hw) as ->.
  pose proof (worker_trace _ _ _ _ _ _ _ Hw) as Htr. simpl in Htr.
  split; [reflexivity|]. split; [|split; [|split]].
  - destruct u as [url|]; [|now rewrite Htr].
    split; [discriminate|]. rewrite Htr. intros H. symmetry in H.
    now apply requests_grow in H.
  - revert Hw. worker_cases; intros [= <- <-]; simpl in Hfile;
      rewrite (makedirs_isfile _ _ _ _ Hmk) in Hfile.
    + tauto.
    + split; [discriminate|]. intros [Hthere|Hunk]; [congruence|].
      rewrite resolve_url_unsupported in Hres by exact Hunk. discriminate.
    + split; [discriminate|]. intros [Hthere|Hunk]; [congruence|].
      rewrite resolve_url_unsupported in Hres by exact Hunk. discriminate.
    + split; [discriminate|]. intros [Hthere|Hunk]; [congruence|].
      rewrite resolve_url_unsupported in Hres by exact Hunk. discriminate.
    + split; [|reflexivity]. intros _. right.
      eapply resolve_url_none; eauto.
  - unfold counted. destruct u as [[|c url]|]; simpl.
    + (* an empty URL *)
      split; [|intros [? _]; discriminate]. intros ->. exfalso.
      revert Hw. worker_cases; try discriminate.
      intros [= -> _]. rewrite Hempty in Hfetch. discriminate.
    + split; [discriminate|intros [? _]; discriminate].
    + tauto.
  - intros a w0. unfold loop_body.
    destruct u as [[|c url]|], ok; simpl; try reflexivity.
    exfalso. revert Hw. worker_cases; try discriminate.
    intros [= -> _]. rewrite Hempty in Hfetch. discriminate.
Qed.

End Claims.

(** ** The claims on sample runs *)

(** C3: with the default service type XYZ and a template written for a
    bounding box, formatting the URL raises [KeyError] in the worker; the
    exception reaches the loop and ends [main], although the output
    directory could be created. *)
Lemma key_error_escapes_worker :
  let a := sample_args "XYZ" bbox_url in
  let w := fresh [tile_100] in
  makedirs (args_out a) (fs w) <> None
  /\ fst (worker (online 0 0 0) a (args_rate a) 0 w) = Raise (KeyError "xmin")
  /\ fst (main (online 0 0 0) a [0] w) = Raise (KeyError "xmin").
Proof. vm_compute. split; [discriminate|split; reflexivity]. Qed.

(** C5: 0.6 s pass before the request is issued and 0.6 s until the tile
    is saved.  Counted from the request the elapsed time is below the
    interval of one second, yet the worker does not sleep: it counts 1.2 s,
    from its entry. *)
Lemma pacing_ignores_time_of_request :
  let E := online (6 # 10) (6 # 10) 0 in
  let a := sample_args "XYZ" xyz_url in
  let w := fresh [tile_100] in
  let w' := snd (worker E a (args_rate a) 0 w) in
  fst (worker E a (args_rate a) 0 w) = Return (0, Some "http://host/1/0/0", true)
  /\ trace w' = [Request "http://host/1/0/0" (6 # 10)]
  /\ (clock w' - (6 # 10) < inject_Z (args_rate a) / inject_Z (args_rate a))%Q
  /\ sleeps (trace w') = [].
Proof. vm_compute. repeat split. Qed.

(** C6: the request is made and gets no response; the tile fails and the
    progress indicator stays where it was. *)
Lemma failed_fetch_leaves_progress :
  let a := sample_args "XYZ" xyz_url in
  let w := fresh [tile_100] in
  fst (worker offline a 10 0 w) = Return (0, Some "http://host/1/0/0", false)
  /\ requests (trace (snd (worker offline a 10 0 w))) = ["http://host/1/0/0"]
  /\ progress (snd (worker offline a 10 0 w)) = progress w
  /\ fst (main offline a [0] w) = Return tt
  /\ requests (trace (snd (main offline a [0] w))) = ["http://host/1/0/0"]
  /\ progress (snd (main offline a [0] w)) = 0.
Proof. vm_compute. repeat split. Qed.

(** C7: the service type is unknown and the file of the tile is there;
    the outcome is that of a tile already present, and no warning is
    logged. *)
Lemma unknown_type_present_tile :
  let a := sample_args "FOO" xyz_url in
  let w := downloaded [tile_100] in
  supported (args_type a) = false
  /\ fst (worker (online 0 0 0) a 10 0 w) = Return (0, None, true)
  /\ fst (main (online 0 0 0) a [0] w) = Return tt
  /\ logs (snd (main (online 0 0 0) a [0] w))
     = [Begin "http://host/{z}/{x}/{y}"; Notice 1].
Proof. vm_compute. repeat split. Qed.

(** C9: no tile is there before the run; both are fetched, [main] returns
    and the log has no summary line. *)
Lemma no_summary_when_none_present :
  let a := sample_args "XYZ" xyz_url in
  let w := fresh [tile_100; tile_110] in
  fst (main (online 0 0 0) a [0; 1] w) = Return tt
  /\ logs (snd (main (online 0 0 0) a [0; 1] w))
     = [Begin "http://host/{z}/{x}/{y}"]
  /\ forall k, ~ In (Notice k) (logs (snd (main (online 0 0 0) a [0; 1] w))).
Proof.
  vm_compute. repeat split. intros k [H|[]]. discriminate.
Qed.
(** ** The theorems on sample runs *)

(** C1 on the tile 1/0/0, which is not on disk, with the template
    [http://host/{z}/{x}/{y}] and a server that answers. *)
Lemma tms_assignment_raises_witness :
  let E := online 0 0 0 in
  let a := sample_args "TMS" xyz_url in
  let w := fresh [tile_100] in
  args_type a = "TMS"
  /\ resolve_url E a 0 w = (Raise AttributeError, w)
  /\ fst (worker E a 10 0 w) = Raise AttributeError
  /\ heap (snd (worker E a 10 0 w)) = [tile_100]
  /\ requests (trace (snd (worker E a 10 0 w))) = []
  /\ fst (main E a [0] w) = Raise AttributeError
  /\ requests (trace (snd (main E a [0] w))) = [].
Proof.
  intros E a w.
  assert (Hty : args_type a = "TMS") by reflexivity.
  destruct (tms_assignment_raises E a Hty) as (Hres & Hworker & Hmain).
  split; [exact Hty|]. split; [apply Hres|].
  destruct (Hworker 10%Z 0 w) as (Hw & Ht & Hh);
    [vm_compute; discriminate|reflexivity|].
  split; [exact Hw|]. split; [exact Hh|]. split; [now rewrite Ht|].
  destruct (Hmain [0] w) as (Hm & Htm & _).
  - apply Permutation_refl.
  - reflexivity.
  - vm_compute. discriminate.
  - intros [|r] t; simpl; [intros [= <-]|discriminate].
    vm_compute. discriminate.
  - exists 0, tile_100. split; reflexivity.
  - split; [exact Hm|now rewrite Htm].
Defined.

(** C2 on a directory that holds both tiles of the list. *)
Lemma already_present_skips_network_witness :
  let E := online 0 0 0 in
  let a := sample_args "XYZ" xyz_url in
  let w := downloaded [tile_100; tile_110] in
  (isfile (tile_path a (deref w 0)) (fs w) = true
   /\ fst (worker E a 10 0 w) = Return (0, None, true)
   /\ trace (snd (worker E a 10 0 w)) = trace w)
  /\ fst (main E a [1; 0] w) = Return tt
  /\ trace (snd (main E a [1; 0] w)) = trace w
  /\ logs (snd (main E a [1; 0] w))
     = logs w ++ [Begin (template_text (args_url a)); Notice 2].
Proof.
  intros E a w.
  destruct (already_present_skips_network E a) as [Hworker Hmain].
  split.
  - destruct (Hworker 10%Z 0 w) as (Ho & Ht & _); [reflexivity|].
    split; [reflexivity|]. split; [exact Ho|exact Ht].
  - destruct (Hmain [1; 0] w) as (Hr & _ & Ht & Hl).
    + simpl. apply perm_swap.
    + reflexivity.
    + vm_compute. discriminate.
    + intros [|[|r]] t; simpl; intros [= <-]; reflexivity.
    + split; [exact Hr|]. split; [exact Ht|exact Hl].
Defined.

(** C3 on a fetch without a response and on an image that cannot be
    encoded, which give outcomes, and on a file extension that [Image.save]
    does not know, whose [ValueError] ends [main]. *)
Lemma per_tile_failures_become_outcomes_witness :
  let a := sample_args "XYZ" xyz_url in
  let w := fresh [tile_100] in
  let u := "http://host/1/0/0" in
  fst (worker offline a 10 0 w) = Return (0, Some u, false)
  /\ fst (main offline a [0] w) = Return tt
  /\ fst (worker (online_save_raises OSError) a 10 0 w) = Return (0, Some u, false)
  /\ fst (worker (online_save_raises ValueError) a 10 0 w) = Raise ValueError
  /\ fst (main (online_save_raises ValueError) a [0] w) = Raise ValueError
  /\ fst (worker offline (sample_args "XYZ" [Lit "http://host/"; Positional ""])
                 10 0 w) = Raise IndexError.
Proof.
  intros a w u.
  assert (Hmk : makedirs (tile_dir a (deref w 0)) (fs w) <> None)
    by (vm_compute; discriminate).
  assert (Hfile : isfile (tile_path a (deref w 0)) (fs w) = false) by reflexivity.
  assert (Hurl : forall E : Env, fst (resolve_url E a 0 w) = Return (Some u))
    by (intros E; reflexivity).
  split; [|split; [|split; [|split; [|split]]]].
  - destruct (per_tile_failures_become_outcomes offline a) as (Htask & _).
    destruct (Htask 10%Z 0 w Hmk Hfile) as (_ & _ & Hu).
    destruct (Hu u (Hurl offline)) as [Hnone _]. apply Hnone. reflexivity.
  - destruct (per_tile_failures_become_outcomes offline a)
      as (_ & _ & _ & _ & Hmain).
    destruct (Hmain [0] w (Permutation_refl _) eq_refl) as ([_ Hret] & _).
    apply Hret. intros [|j] Hj; [|simpl in Hj; lia].
    eexists. vm_compute. reflexivity.
  - destruct (per_tile_failures_become_outcomes (online_save_raises OSError) a)
      as (Htask & _).
    destruct (Htask 10%Z 0 w Hmk Hfile) as (_ & _ & Hu).
    destruct (Hu u (Hurl _)) as [_ Hpayload].
    destruct (Hpayload "payload" eq_refl) as (_ & Hsave & _).
    apply (Hsave "payload" None); reflexivity.
  - destruct (per_tile_failures_become_outcomes (online_save_raises ValueError) a)
      as (Htask & _).
    destruct (Htask 10%Z 0 w Hmk Hfile) as (_ & _ & Hu).
    destruct (Hu u (Hurl _)) as [_ Hpayload].
    destruct (Hpayload "payload" eq_refl) as (_ & _ & _ & Hsave).
    apply (Hsave ValueError "payload" None); [discriminate|reflexivity|reflexivity].
  - destruct (per_tile_failures_become_outcomes (online_save_raises ValueError) a)
      as (_ & _ & _ & _ & Hmain).
    destruct (Hmain [0] w (Permutation_refl _) eq_refl) as (_ & Hraise & _).
    destruct (Hraise 0 ValueError) as (j & e & Hle & Hj & _ & Hm);
      [vm_compute; reflexivity|].
    assert (j = 0) as -> by lia.
    vm_compute in Hj. injection Hj as <-. exact Hm.
  - destruct (per_tile_failures_become_outcomes offline
                (sample_args "XYZ" [Lit "http://host/"; Positional ""]))
      as (Htask & _).
    destruct (Htask 10%Z 0 w) as (_ & Hres & _);
      [vm_compute; discriminate|reflexivity|].
    apply Hres. reflexivity.
Defined.


(** C5 on a tile fetched and saved in half a second: the worker sleeps
    the other half. *)
Lemma pacing_from_worker_entry_witness :
  let E := online (1 # 4) (1 # 4) 0 in
  let a := sample_args "XYZ" xyz_url in
  let w := fresh [tile_100] in
  let w' := snd (worker E a (args_rate a) 0 w) in
  let interval := (inject_Z (args_rate a) / inject_Z (args_rate a))%Q in
  let elapsed := (clock w + (1 # 4) + (1 # 4) + 0 - clock w)%Q in
  (interval == 1)%Q
  /\ (elapsed < interval)%Q
  /\ trace w'
     = [Sleep (interval - elapsed);
        Request "http://host/1/0/0" (clock w + (1 # 4))%Q].
Proof.
  intros E a w w' interval elapsed.
  destruct (pacing_from_worker_entry E a 0 w 0 "http://host/1/0/0" w')
    as (Hone & Hsleep & _); [reflexivity|].
  split; [exact Hone|].
  assert (Hlt : (elapsed < interval)%Q) by reflexivity.
  split; [exact Hlt|]. exact (Hsleep Hlt).
Defined.

(** C6 on a list of one tile that is there and one that is fetched. *)
Lemma progress_counts_fetched_witness :
  let E := online 0 0 0 in
  let a := sample_args "XYZ" xyz_url in
  let w := downloaded [tile_100; mkTile 0 1 1] in
  progress (snd (executor_map E a [1; 0] w))
  = progress w
    + length (List.filter fetched (returned (fst (executor_map E a [1; 0] w))))
  /\ returned (fst (executor_map E a [1; 0] w))
     = [(0, None, true); (1, Some "http://host/1/0/1", true)].
Proof.
  intros E a w.
  destruct (progress_counts_fetched E a [1; 0] w) as (_ & Hpool & _).
  - simpl. apply perm_swap.
  - split; [exact Hpool|reflexivity].
Defined.

(** C7 on two tiles that are not there, with the service type FOO. *)
Lemma unknown_type_fails_absent_tile_witness :
  let E := online 0 0 0 in
  let a := sample_args "FOO" xyz_url in
  let w := fresh [tile_100; tile_110] in
  supported (args_type a) = false
  /\ fst (worker E a 10 0 w) = Return (0, None, false)
  /\ trace (snd (worker E a 10 0 w)) = trace w
  /\ fst (main E a [1; 0] w) = Return tt
  /\ logs (snd (main E a [1; 0] w))
     = [Begin "http://host/{z}/{x}/{y}";
        Warning "Tile(x=0, y=0, z=1)" None;
        Warning "Tile(x=1, y=0, z=1)" None].
Proof.
  intros E a w.
  assert (Hty : supported (args_type a) = false) by reflexivity.
  destruct (unknown_type_fails_absent_tile E a Hty) as [Hworker Hmain].
  split; [exact Hty|].
  destruct (Hworker 10%Z 0 w 0 w) as (Ho & Ht & _);
    [vm_compute; discriminate|vm_compute; reflexivity|].
  split; [exact Ho|]. split; [exact Ht|].
  destruct (Hmain [1; 0] w) as (Hr & _ & _ & Hl).
  - simpl. apply perm_swap.
  - reflexivity.
  - vm_compute. discriminate.
  - intros [|[|r]] t; simpl; intros [= <-];
      (split; [vm_compute; discriminate|vm_compute; reflexivity]).
  - split; [exact Hr|exact Hl].
Defined.

(** C8 on two tiles whose tasks run in the reverse order. *)
Lemma outcomes_in_submission_order_witness :
  let E := online 0 0 0 in
  let a := sample_args "XYZ" xyz_url in
  let w := fresh [tile_100; tile_110] in
  main E a [1; 0] w = (Return tt, snd (main E a [1; 0] w))
  /\ map tile_of (consumed (fst (executor_map E a [1; 0] (snd (startup a w)))))
     = [0; 1]
  /\ requests (trace (snd (main E a [1; 0] w)))
     = ["http://host/1/0/0"; "http://host/1/1/0"].
Proof.
  intros E a w.
  assert (Hm : main E a [1; 0] w = (Return tt, snd (main E a [1; 0] w)))
    by (vm_compute; reflexivity).
  destruct (outcomes_in_submission_order E a [1; 0] w) as (_ & _ & _ & _ & Hall).
  split; [exact Hm|]. split; [exact (Hall w _ Hm)|vm_compute; reflexivity].
Defined.

(** C9 on a list of one tile that is there and one that is fetched. *)
Lemma summary_only_when_some_present_witness :
  let E := online 0 0 0 in
  let a := sample_args "XYZ" xyz_url in
  let w := downloaded [tile_100; mkTile 0 1 1] in
  main E a [1; 0] w = (Return tt, snd (main E a [1; 0] w))
  /\ logs (snd (main E a [1; 0] w))
     = [Begin "http://host/{z}/{x}/{y}"; Notice 1].
Proof.
  intros E a w.
  assert (Hm : main E a [1; 0] w = (Return tt, snd (main E a [1; 0] w)))
    by (vm_compute; reflexivity).
  destruct (summary_only_when_some_present E a [1; 0] w _ Hm) as [Hl _].
  split; [exact Hm|]. rewrite Hl. vm_compute. reflexivity.
Defined.

(** C10 on a tile that is fetched and saved. *)
Lemma outcome_encoding_witness :
  let E := online 0 0 0 in
  let a := sample_args "XYZ" xyz_url in
  let w := fresh [tile_100] in
  let w' := snd (worker E a 10 0 w) in
  (forall timeout attempt, fetch_image E "" timeout attempt = None)
  /\ worker E a 10 0 w = (Return (0, Some "http://host/1/0/0", true), w')
  /\ (counted (0, Some "http://host/1/0/0", true) = true
      <-> Some "http://host/1/0/0" = None /\ true = true)
  /\ (Some "http://host/1/0/0" = None
      <-> requests (trace w') = requests (trace w)).
Proof.
  intros E a w w'.
  assert (He : forall timeout attempt, fetch_image E "" timeout attempt = None)
    by (intros timeout attempt; reflexivity).
  assert (Hw : worker E a 10 0 w
               = (Return (0, Some "http://host/1/0/0", true), w'))
    by (vm_compute; reflexivity).
  destruct (outcome_encoding E a 10%Z 0 w 0 (Some "http://host/1/0/0") true w'
              He Hw) as (_ & Hreq & _ & Hcount & _).
  split; [exact He|]. split; [exact Hw|]. split; [exact Hcount|exact Hreq].
Defined.


(** * Further properties of the worker and of [main] *)

Section RunExtras.

Variable E : Env.
Variable args : Args.

(** With XYZ or WMS and a template of literal text and plain fields, the
    URL resolution raises only the [KeyError] of a field that the type does
    not supply. *)
Lemma resolve_url_plain_raise r w e w' :
  plain (args_url args) = true ->
  String.eqb (args_type args) "TMS" = false ->
  resolve_url E args r w = (Raise e, w') ->
  exists name,
    e = KeyError name
    /\ In name (fields (args_url args))
    /\ existsb (String.eqb name) (keywords (args_type args)) = false.
Proof.
  intros Hp Hty. unfold resolve_url, format_xyz, keywords. rewrite Hty.
  destruct (String.eqb (args_type args) "XYZ").
  { destruct (format _ _ _) eqn:Hf; [discriminate|]. intros [= <- _].
    destruct (format_plain_raise _ _ _ _ Hp Hf) as (name & -> & Hin & Hk).
    exists name. repeat split; auto. now apply kwarg_none in Hk. }
  destruct (String.eqb (args_type args) "WMS"); [|discriminate].
  destruct (tile_to_bbox E (deref w r)) as [[[xmin ymin] xmax] ymax].
  destruct (format _ _ _) eqn:Hf; [discriminate|]. intros [= <- _].
  destruct (format_plain_raise _ _ _ _ Hp Hf) as (name & -> & Hin & Hk).
  exists name. repeat split; auto. now apply kwarg_none in Hk.
Qed.

(** And it does raise it when there is such a field. *)
Lemma resolve_url_plain_misfit r w :
  plain (args_url args) = true ->
  String.eqb (args_type args) "TMS" = false ->
  supported (args_type args) = true ->
  template_fits args = false ->
  exists name, resolve_url E args r w = (Raise (KeyError name), w).
Proof.
  intros Hp Hty. unfold supported, template_fits, keywords, resolve_url, format_xyz.
  rewrite Hty.
  destruct (String.eqb (args_type args) "XYZ").
  { intros _ H.
    destruct (format_plain_misfit (format_field E) (args_url args)
                [("x", str_int (tx (deref w r))); ("y", str_int (ty (deref w r)));
                 ("z", str_int (tz (deref w r)))] Hp H) as [name ->]. eauto. }
  destruct (String.eqb (args_type args) "WMS"); [|discriminate].
  intros _ H.
  destruct (tile_to_bbox E (deref w r)) as [[[xmin ymin] xmax] ymax].
  destruct (format_plain_misfit (format_field E) (args_url args)
              [("xmin", xmin); ("ymin", ymin); ("xmax", xmax); ("ymax", ymax)]
              Hp H) as [name ->]. eauto.
Qed.



(** A run over a directory that holds the file of every tile. *)
Lemma main_all_present sched w :
  Permutation sched (seq 0 (length (heap w))) ->
  (0 < args_rate args)%Z ->
  makedirs (args_out args) (fs w) <> None ->
  (forall r t, heap w !! r = Some t -> isfile (tile_path args t) (fs w) = true) ->
  fst (main E args sched w) = Return tt
  /\ fst (executor_map E args sched (snd (startup args w)))
     = map (fun r => Some (Return (r, None, true))) (seq 0 (length (heap w)))
  /\ trace (snd (main E args sched w)) = trace w.
Proof.
  intros Hp Hrate Hout Hall.
  destruct (startup_ok args w Hout Hrate) as [ws Hst].
  pose proof (startup_return _ _ _ _ Hst)
    as ((f & Hmk & Hsb) & _ & Hh & _ & Htr & _).
  pose (I := fun w0 : World =>
               fs w0 = fs ws /\ heap w0 = heap w /\ trace w0 = trace w).
  destruct (main_uniform E args I (fun r => (r, None, true)) sched w ws Hst)
    as (w1 & w2 & (_ & _ & Ht1) & Hfut & Hmain & _ & _ & Ht2 & _).
  - now rewrite Hh.
  - now unfold I.
  - intros i w0 (Hf0 & Hh0 & Ht0) Hi. rewrite Hh in Hi.
    destruct (lookup_lt_is_Some_2 (heap w) i Hi) as [t Hti].
    assert (Hpres : isfile (tile_path args (deref w0 i)) (fs w0) = true).
    { unfold deref. rewrite Hh0, Hti, Hf0.
      rewrite (isfile_tile_path_same_but args t _ _ Hsb).
      rewrite (makedirs_isfile _ _ _ _ Hmk). eauto. }
    rewrite (worker_present _ _ _ _ _ Hpres). simpl.
    unfold I. simpl. auto.
  - rewrite Hh in Hfut.
    rewrite Hst. simpl snd. rewrite Hmain. simpl fst. simpl snd.
    match goal with
    | |- context [finish args ?k w2] =>
        pose proof (finish_frame args k w2) as (_ & _ & _ & Htf & _)
    end.
    repeat split; auto.
    + rewrite Hfut. now rewrite map_map.
    + rewrite Htf, Ht2. exact Ht1.
Qed.

End RunExtras.

Section Extras.

Variable E : Env.
Variable args : Args.

(** X1. With any service type but TMS the tiles are only read: a task
    leaves every tile object as it was, and so does a whole run, however
    it ends. *)
Theorem only_tms_changes_tiles sched w :
  String.eqb (args_type args) "TMS" = false ->
  (forall nw r w0, heap (snd (worker E args nw r w0)) = heap w0)
  /\ heap (snd (main E args sched w)) = heap w.
Proof.
  intros Hty.
  split; [intros nw r w0; apply worker_heap|].
  apply (main_preserves E args (fun w0 => heap w0 = heap w)); auto.
  intros i w0 Hh. now rewrite worker_heap.
Qed.

(** X4. With the service type XYZ or WMS and a template of literal text
    and plain fields, a task raises [KeyError] before any request exactly
    when the directory of the tile can be created, the file of the tile is
    not there and the template has a field that the type does not supply.
    The field named is such a field. *)
Theorem keyerror_iff_template_misfit nw r w :
  plain (args_url args) = true ->
  String.eqb (args_type args) "TMS" = false ->
  ((exists name w',
       worker E args nw r w = (Raise (KeyError name), w')
       /\ trace w' = trace w)
   <-> makedirs (tile_dir args (deref w r)) (fs w) <> None
       /\ isfile (tile_path args (deref w r)) (fs w) = false
       /\ supported (args_type args) = true
       /\ template_fits args = false)
  /\ (forall name w',
        worker E args nw r w = (Raise (KeyError name), w') ->
        trace w' = trace w ->
        In name (fields (args_url args))
        /\ existsb (String.eqb name) (keywords (args_type args)) = false).
Proof.
  intros Hp Hty.
  assert (Hraise : forall name w',
             worker E args nw r w = (Raise (KeyError name), w') ->
             trace w' = trace w ->
             makedirs (tile_dir args (deref w r)) (fs w) <> None
             /\ isfile (tile_path args (deref w r)) (fs w) = false
             /\ supported (args_type args) = true
             /\ In name (fields (args_url args))
             /\ existsb (String.eqb name) (keywords (args_type args)) = false).
  { intros name w'. worker_cases; intros [= Hname <-] Htr.
    - (* raised by the [try] block: a request was made *)
      exfalso. apply resolve_url_world in Hres as ->.
      apply store_frame in Hstore as (_ & _ & Ht2 & _). simpl in Ht2.
      rewrite Htr in Ht2.
      apply (f_equal (@length event)) in Ht2. simpl in Ht2. lia.
    - subst e0. simpl in Hfile. rewrite (makedirs_isfile _ _ _ _ Hmk) in Hfile.
      pose proof (resolve_url_raise_supported _ _ _ _ _ _ Hres) as Hs.
      destruct (resolve_url_plain_raise _ _ _ _ _ _ Hp Hty Hres)
        as (name' & [= <-] & Hin & Hk).
      repeat split; auto. }
  split; [split|].
  - intros (name & w' & Hw & Htr).
    destruct (Hraise _ _ Hw Htr) as (Hmk & Hfile & Hs & Hin & Hk).
    repeat split; auto. unfold template_fits. eapply fields_missing; eauto.
  - intros (Hmk & Hfile & Hs & Hfit).
    destruct (makedirs _ _) as [f|] eqn:Hm; [|congruence].
    rewrite (worker_resolved E args nw r w f Hm Hfile).
    destruct (resolve_url_plain_misfit E args r w Hp Hty Hs Hfit) as [name ->].
    simpl. eauto.
  - intros name w' Hw Htr.
    destruct (Hraise _ _ Hw Htr) as (_ & _ & _ & Hin & Hk). auto.
Qed.

(** X5. When a task reports a tile as fetched, the payload was fetched
    from the URL of the outcome, opened and encoded, and the file of the
    tile holds what [Image.save] produced. *)
Theorem fetched_tile_is_on_disk nw r w t u w' :
  worker E args nw r w = (Return (t, Some u, true), w') ->
  exists payload image data,
    fetch_image E u (args_timeout args) (length (requests (trace w)))
    = Some payload
    /\ Image_open E payload = Return image
    /\ Image_save E image (tile_path args (deref w r)) = Saved data
    /\ lookup_path (tile_path args (deref w r)) (fs w') = Some (File data).
Proof.
  worker_cases; intros [= <- <- <-].
  apply resolve_url_world in Hres as ->. simpl in Hfetch.
  apply store_saved_file in Hstore as (image & data & Hopen & Hsave & Hl).
  exists payload, image, data. repeat split; auto.
  destruct (Qltb _ _); exact Hl.
Qed.

(** X6. With any service type but TMS, a tile that a task has fetched is
    found on disk by the next task for it: that task returns
    [(tile, None, True)] without a request. *)
Theorem fetched_then_present nw nw' r w t u w' :
  String.eqb (args_type args) "TMS" = false ->
  worker E args nw r w = (Return (t, Some u, true), w') ->
  fst (worker E args nw' r w') = Return (r, None, true)
  /\ trace (snd (worker E args nw' r w')) = trace w'
  /\ fs (snd (worker E args nw' r w')) = fs w'.
Proof.
  intros Hty Hw.
  assert (Hh : heap w' = heap w).
  { pose proof (worker_heap E args nw r w) as H. now rewrite Hw in H. }
  assert (Hfile : isfile (tile_path args (deref w' r)) (fs w') = true).
  { unfold deref. rewrite Hh. fold (deref w r).
    eapply worker_ok_file; eauto. }
  rewrite (worker_present _ _ _ _ _ Hfile). simpl. auto.
Qed.


(** X8. Unless [os.makedirs] raises, the directory [out/z/x] of the tile
    is there after the task, also when the tile failed or the task raised;
    and no task removes a directory. *)
Theorem tile_directory_created nw r w :
  makedirs (tile_dir args (deref w r)) (fs w) <> None ->
  isdir (tile_dir args (deref w r)) (fs (snd (worker E args nw r w))) = true
  /\ (forall p, isdir p (fs w) = true ->
                isdir p (fs (snd (worker E args nw r w))) = true).
Proof.
  intros Hmk. split; [|intros p; apply worker_keeps_dir].
  destruct (makedirs (tile_dir args (deref w r)) (fs w)) as [f|] eqn:Hm;
    [|congruence].
  destruct (worker E args nw r w) as [x w'] eqn:Hw. simpl.
  eapply (worker_fs_after E args
            (fun n => isdir (tile_dir args (deref w r)) n = true));
    [|exact Hw|exact Hm|].
  - intros q data n n' Hwr _ Hn. eapply write_file_keeps_dir; eauto.
  - eapply makedirs_isdir; eauto.
Qed.

(** X9. Only a tile that was fetched and saved is ever paced: a task whose
    tile was already present or failed, or that raised, has not slept, and
    a task never sleeps a duration that is not positive. *)
Theorem sleeps_only_after_fetch nw r w x w' :
  worker E args nw r w = (x, w') ->
  match x with
  | Return (_, Some _, true) =>
      sleeps (trace w') = sleeps (trace w)
      \/ exists d, (0 < d)%Q /\ sleeps (trace w') = d :: sleeps (trace w)
  | _ => sleeps (trace w') = sleeps (trace w)
  end.
Proof.
  worker_cases; intros [= <- <-]; simpl;
    try (apply resolve_url_frame in Hres as (_ & _ & Ht & _); simpl in Ht);
    try (apply store_frame in Hstore as (_ & _ & Ht2 & _); simpl in Ht2);
    rewrite ?Ht2; simpl; rewrite ?Ht; auto.
  destruct (Qltb _ _) eqn:Hlt; simpl; rewrite Ht2; simpl; rewrite Ht; auto.
  right. eexists. split; [|reflexivity].
  apply Qltb_lt in Hlt. lra.
Qed.

(** X10. With the pool of [main] (as many workers as the rate), a task
    that fetches and saves a tile ends no earlier than one second after
    it began. *)
Theorem fetched_task_lasts_an_interval r w t u w' :
  worker E args (args_rate args) r w = (Return (t, Some u, true), w') ->
  (clock w + 1 <= clock w')%Q.
Proof.
  worker_cases; intros [= <- <- <-].
  assert (Hone : (inject_Z (args_rate args) / inject_Z (args_rate args) == 1)%Q).
  { apply Z.eqb_neq in Hrate. unfold Qdiv. apply Qmult_inv_r.
    unfold Qeq. simpl. lia. }
  revert Hone.
  generalize (inject_Z (args_rate args) / inject_Z (args_rate args))%Q.
  intros interval Hone.
  destruct (Qltb _ _) eqn:Hlt; simpl.
  - lra.
  - assert (Hge : ~ (clock w2 + dt_store E r - clock w < interval)%Q).
    { intros H. apply Qltb_lt in H. simpl in Hlt. congruence. }
    lra.
Qed.

(** X11. A task makes at most one request: one when its outcome carries a
    URL, none when it carries none; a task that raises may have made its
    request.  So the pool makes one request for every outcome with a URL
    and at most one more for every task that raised, and a run makes at most
    as many requests as there are tiles. *)
Theorem one_request_per_task sched w :
  Permutation sched (seq 0 (length (heap w))) ->
  let futures := fst (executor_map E args sched w) in
  let before := length (requests (trace w)) in
  let after := length (requests (trace (snd (executor_map E args sched w)))) in
  let with_url := length (List.filter has_url (returned futures)) in
  (forall nw r w0,
      exists k,
        length (requests (trace (snd (worker E args nw r w0))))
        = length (requests (trace w0)) + k
        /\ match fst (worker E args nw r w0) with
           | Return o => k = if has_url o then 1 else 0
           | Raise _ => k <= 1
           end)
  /\ before + with_url <= after
  /\ after <= before + with_url + length (raised futures)
  /\ after <= before + length (heap w)
  /\ length (requests (trace (snd (main E args sched w))))
     <= before + length (heap w).
Proof.
  intros Hp. cbv zeta.
  assert (Hpool : forall w0, heap w0 = heap w ->
            length (requests (trace w0))
            + length (List.filter has_url
                        (returned (fst (executor_map E args sched w0))))
            <= length (requests (trace (snd (executor_map E args sched w0))))
            /\ length (requests (trace (snd (executor_map E args sched w0))))
               <= length (requests (trace w0))
                  + length (List.filter has_url
                              (returned (fst (executor_map E args sched w0))))
                  + length (raised (fst (executor_map E args sched w0)))
            /\ length (requests (trace (snd (executor_map E args sched w0))))
               <= length (requests (trace w0)) + length (heap w)).
  { intros w0 Hh.
    pose proof (executor_map_length E args sched w0) as Hlen.
    pose proof (returned_raised_length has_url
                  (fst (executor_map E args sched w0))) as Hsum.
    unfold executor_map in *. rewrite Hh in *.
    pose proof (run_tasks_requests E args (args_rate args) sched
                  (replicate (length (heap w)) None) w0) as H.
    assert (Hnd : NoDup sched) by (rewrite Hp; apply NoDup_seq).
    assert (Hnone : forall i, In i sched ->
              replicate (length (heap w)) (@None (res outcome)) !! i = Some None).
    { intros i Hi. apply (Permutation_in _ Hp), in_seq in Hi.
      apply lookup_replicate. split; [reflexivity|lia]. }
    specialize (H Hnd Hnone). cbv zeta in H.
    rewrite returned_replicate in H.
    assert (Hr0 : raised (replicate (length (heap w)) (@None (res outcome))) = []).
    { clear. induction (length (heap w)) as [|n IH]; [reflexivity|exact IH]. }
    rewrite Hr0 in H. simpl in H. lia. }
  split; [intros nw r w0; apply worker_requests|].
  destruct (Hpool w eq_refl) as (H1 & H2 & H3).
  split; [exact H1|]. split; [exact H2|]. split; [exact H3|].
  unfold main.
  destruct (startup args w) as [[[]|e] ws] eqn:Hst.
  - apply startup_return in Hst as (_ & _ & Hh & _ & Ht & _).
    destruct (Hpool ws Hh) as (_ & _ & Hbound). rewrite Ht in Hbound.
    destruct (executor_map E args sched ws) as [futures w1]. simpl in Hbound.
    destruct (consume E futures 0 w1) as [[k|e] w2] eqn:Hc;
      apply consume_frame in Hc as (_ & _ & _ & Ht2 & _); simpl.
    + pose proof (finish_frame args k w2) as (_ & _ & _ & Htf & _).
      rewrite Htf, Ht2. exact Hbound.
    + rewrite Ht2. exact Hbound.
  - simpl. unfold startup in Hst.
    destruct (makedirs _ _); [|injection Hst as _ <-; lia].
    destruct (args_rate args <=? 0)%Z; [|discriminate].
    injection Hst as _ <-. simpl. lia.
Qed.

(** X15. When [main] returns, the loop has run on one outcome for every
    tile of the list, and each of them is of exactly one kind: already
    present, fetched or failed.  The three counts add up to the number of
    tiles. *)
Theorem every_tile_accounted_for sched w w' :
  main E args sched w = (Return tt, w') ->
  let outs := consumed (fst (executor_map E args sched (snd (startup args w)))) in
  length outs = length (heap w)
  /\ length (heap w)
     = length (List.filter already_present outs)
       + length (List.filter fetched outs)
       + length (List.filter failed outs).
Proof.
  intros Hm outs.
  assert (Hlen : length outs = length (heap w)).
  { apply main_return in Hm as (k & w2 & Hc & Hs & _).
    destruct (startup args w) as [[[]|e] ws] eqn:Hst; [|discriminate].
    apply startup_return in Hst as (_ & _ & Hh & _). simpl in *.
    apply consume_return in Hc as [_ Hmap].
    apply (f_equal (@length _)) in Hmap. rewrite length_map in Hmap.
    fold outs in Hmap. rewrite <- Hmap. unfold executor_map.
    now rewrite run_tasks_length, length_replicate, Hh. }
  split; [exact Hlen|]. rewrite <- Hlen. apply partition_classes.
Qed.

(** X16. [leaflet] is called only when [main] reaches its end and
    [--leaflet] is a non-empty string; it is given the whole list of tiles,
    failed ones included, as the run has left them.  When [main] raises,
    or [--leaflet] is absent or empty, it is not called. *)
Theorem leaflet_called_at_the_end sched w :
  (forall w',
      main E args sched w = (Return tt, w') ->
      preview w' = if truthy (args_leaflet args) then Some (heap w') else preview w)
  /\ (forall w',
        main E args sched w = (Return tt, w') ->
        length (heap w') = length (heap w))
  /\ (forall e w', main E args sched w = (Raise e, w') -> preview w' = preview w).
Proof.
  assert (Hpool : forall ws,
             preview (snd (executor_map E args sched ws)) = preview ws
             /\ length (heap (snd (executor_map E args sched ws)))
                = length (heap ws)).
  { intros ws. pose proof (executor_map_frame E args sched ws) as (_ & H1 & H2).
    auto. }
  split; [|split].
  - intros w' Hm. apply main_return in Hm as (k & w2 & Hc & Hs & ->).
    destruct (startup args w) as [[[]|e] ws] eqn:Hst; [|discriminate].
    apply startup_return in Hst as (_ & _ & _ & _ & _ & _ & Hpv & _).
    simpl in *. apply consume_frame in Hc as (_ & _ & _ & _ & _ & Hp2 & _).
    destruct (Hpool ws) as [Hp1 _].
    unfold finish. destruct (truthy (args_leaflet args)).
    + destruct k; reflexivity.
    + destruct k; simpl; congruence.
  - intros w' Hm. apply main_return in Hm as (k & w2 & Hc & Hs & ->).
    destruct (startup args w) as [[[]|e] ws] eqn:Hst; [|discriminate].
    apply startup_return in Hst as (_ & _ & Hh & _).
    simpl in *. apply consume_frame in Hc as (_ & Hh2 & _).
    destruct (Hpool ws) as [_ Hl].
    pose proof (finish_frame args k w2) as (_ & Hhf & _).
    now rewrite Hhf, Hh2, Hl, Hh.
  - intros e w'. unfold main.
    destruct (startup args w) as [[[]|e0] ws] eqn:Hst.
    + apply startup_return in Hst as (_ & _ & _ & _ & _ & _ & Hpv & _).
      destruct (Hpool ws) as [Hp1 _].
      destruct (executor_map E args sched ws) as [futures w1]. simpl in Hp1.
      destruct (consume E futures 0 w1) as [[k|e1] w2] eqn:Hc; [discriminate|].
      apply consume_frame in Hc as (_ & _ & _ & _ & _ & Hp2 & _).
      intros [= _ <-]. congruence.
    + intros [= _ <-]. unfold startup in Hst.
      destruct (makedirs _ _); [|now injection Hst as _ <-].
      destruct (args_rate args <=? 0)%Z; [|discriminate].
      now injection Hst as _ <-.
Qed.

(** X17. Resuming, with any service type but TMS: after a run that
    returned and in which no tile failed, a second run of the same command
    over the same tiles reports every tile as already present and makes no
    request, whatever the order in which the pool takes the tasks. *)
Theorem rerun_after_success_fetches_nothing sched sched' w w1 :
  String.eqb (args_type args) "TMS" = false ->
  Permutation sched' (seq 0 (length (heap w))) ->
  main E args sched w = (Return tt, w1) ->
  (forall o,
      In o (consumed (fst (executor_map E args sched (snd (startup args w))))) ->
      failed o = false) ->
  fst (main E args sched' w1) = Return tt
  /\ fst (executor_map E args sched' (snd (startup args w1)))
     = map (fun r => Some (Return (r, None, true))) (seq 0 (length (heap w)))
  /\ trace (snd (main E args sched' w1)) = trace w1.
Proof.
  intros Hty Hp' Hm Hok.
  apply main_return in Hm as (k & w2 & Hc & Hs & ->).
  destruct (startup args w) as [[[]|e] ws] eqn:Hst; [|discriminate].
  apply startup_return in Hst
    as ((f & Hmk & Hsb) & Hrate & Hh & _ & _ & _ & _ & _ & Hlf).
  simpl in *.
  pose proof (consume_return _ _ _ _ _ _ Hc) as [_ Hmap].
  pose proof (consume_fs E _ (log_path args) _ _ _ _ Hc) as Hfs2.
  apply consume_frame in Hc as (Hlf2 & Hh2 & _).
  pose proof (finish_frame args k w2) as (_ & Hhf & _).
  set (pool := executor_map E args sched ws) in *.
  assert (Hhp : heap (snd pool) = heap w).
  { unfold pool. now rewrite executor_map_heap. }
  assert (Hlp : logfile (snd pool) = Some (log_path args)).
  { unfold pool. now rewrite executor_map_logfile. }
  assert (Hsb2 : same_but (log_path args) (fs (snd pool)) (fs (finish args k w2))).
  { eapply same_but_trans; [exact (Hfs2 Hlp)|].
    apply finish_fs. congruence. }
  assert (Hhw : heap (finish args k w2) = heap w) by congruence.
  rewrite <- Hhw in Hp' |- *.
  apply main_all_present; auto.
  - (* the output directory is still there *)
    assert (Hdir : isdir (args_out args) (fs (snd pool)) = true).
    { unfold pool, executor_map.
      apply (run_tasks_preserves E args
               (fun w0 => isdir (args_out args) (fs w0) = true)).
      - intros i w0. apply worker_keeps_dir.
      - destruct Hsb as (_ & _ & Hd). rewrite Hd.
        eapply makedirs_isdir; eauto. }
    destruct Hsb2 as (_ & _ & Hd). rewrite <- Hd in Hdir.
    rewrite (isdir_makedirs _ _ Hdir). discriminate.
  - (* every file is there *)
    intros r t Hr. rewrite Hhw in Hr.
    rewrite (isfile_tile_path_same_but args t _ _ Hsb2).
    assert (Hlt : r < length (fst pool)).
    { unfold pool. rewrite executor_map_length, Hh.
      eapply lookup_lt_Some; eauto. }
    destruct (lookup_lt_is_Some_2 _ _ Hlt) as [x Hx].
    assert (Hin : exists o, x = Some (Return o) /\ In o (consumed (fst pool))).
    { rewrite Hmap in Hx.
      destruct (nth_error (consumed (fst pool)) r) as [o|] eqn:Hn.
      - exists o. split.
        + clear -Hx Hn. revert r Hx Hn.
          induction (consumed (fst pool)) as [|o' l IHl]; intros [|r]; simpl;
            try discriminate.
          * intros [= <-] [= <-]. reflexivity.
          * apply IHl.
        + eapply nth_error_In; eauto.
      - exfalso. clear -Hx Hn. revert r Hx Hn.
        induction (consumed (fst pool)) as [|o' l IHl]; intros [|r]; simpl;
          try discriminate. apply IHl. }
    destruct Hin as (o & -> & Hin).
    specialize (Hok o Hin). destruct o as [[t0 u0] ok0]. simpl in Hok.
    apply negb_false_iff in Hok. subst ok0.
    pose proof (run_tasks_ok_files E args (args_rate args) sched
                  (replicate (length (heap ws)) None) ws) as Hfiles.
    specialize (Hfiles
      ltac:(intros j t' u' Hj; apply lookup_replicate in Hj as [Hj _];
            discriminate) r t0 u0 Hx).
    fold (executor_map E args sched ws) in Hfiles. fold pool in Hfiles.
    unfold deref in Hfiles. rewrite Hhp, Hr in Hfiles. exact Hfiles.
Qed.

(** X18. A task writes no file but the file of its tile: at every other
    path there is a regular file after the task exactly when there was one
    before. *)
Theorem writes_only_its_own_file nw r w p :
  p <> tile_path args (deref w r) ->
  isfile p (fs (snd (worker E args nw r w))) = isfile p (fs w).
Proof.
  intros Hne. destruct (worker E args nw r w) as [x w'] eqn:Hw. simpl.
  destruct (makedirs (tile_dir args (deref w r)) (fs w)) as [f|] eqn:Hmk.
  2: { rewrite worker_makedirs_failed in Hw by exact Hmk. now injection Hw as _ <-. }
  revert Hw. unfold worker. rewrite Hmk.
  pose proof (makedirs_isfile _ _ _ p Hmk) as Hf.
  destruct (isfile (tile_path args (deref w r))
                   (fs (elapse (dt_prepare E r) (set_fs f w)))) eqn:Hfile;
    [now intros [= <- <-]|]. simpl in Hfile.
  destruct (resolve_url _ _ _ _) as [[[url|]|e0] w1] eqn:Hres;
    apply resolve_url_world in Hres as ->; try (now intros [= <- <-]).
  destruct (fetch_image _ _ _ _) as [payload|]; [|now intros [= <- <-]].
  destruct (store _ _ _ _) as [b w2] eqn:Hstore.
  assert (H2 : isfile p (fs w2) = isfile p (fs w)).
  { revert Hstore. unfold store.
    destruct (Image_open E payload) as [image|e];
      [|intros [= _ <-]; exact Hf].
    destruct (Image_save E image _) as [data|e [junk|]];
      [| |intros [= _ <-]; exact Hf].
    - destruct (write_file _ data _) as [f'|] eqn:Hwr; intros [= _ <-]; simpl;
        [|exact Hf].
      simpl in Hwr. now rewrite (write_file_other _ _ _ _ p Hwr Hne).
    - destruct (write_file _ junk _) as [f'|] eqn:Hwr; intros [= _ <-]; simpl;
        [|exact Hf].
      simpl in Hwr. now rewrite (write_file_other _ _ _ _ p Hwr Hne). }
  destruct b as [[]|e1]; try (now intros [= <- <-]).
  destruct (args_rate args =? 0)%Z; [now intros [= <- <-]|].
  destruct (Qltb _ _); now intros [= <- <-].
Qed.

(** X19. When a task has raised, [main] raises too: it raises the
    exception of the first task, in the order of submission, that raised.
    By then the loop has run on the outcomes of the tiles submitted before
    that task, and on no other: it has logged the first line and the
    warnings of those that failed, and there is no summary line. *)
Theorem raising_run_reports_a_prefix sched w j e :
  Permutation sched (seq 0 (length (heap w))) ->
  fst (startup args w) = Return tt ->
  let futures := fst (executor_map E args sched (snd (startup args w))) in
  futures !! j = Some (Some (Raise e)) ->
  exists j' e' w',
    j' <= j
    /\ futures !! j' = Some (Some (Raise e'))
    /\ main E args sched w = (Raise e', w')
    /\ length (consumed futures) = j'
    /\ j' < length (heap w)
    /\ logs w'
       = logs w ++ Begin (template_text (args_url args))
                :: map (warning_of E w') (List.filter failed (consumed futures)).
Proof.
  intros Hp Hs futures Hj.
  destruct (startup args w) as [[[]|e0] ws] eqn:Hst; [|discriminate].
  simpl in futures.
  pose proof (startup_return _ _ _ _ Hst)
    as (_ & _ & Hh & _ & _ & _ & _ & Hlog & _).
  assert (Hlen : length futures = length (heap w)).
  { unfold futures. now rewrite executor_map_length, Hh. }
  destruct (first_raise futures j e) as (j' & e' & Hle & Hj' & Hbefore).
  { intros i Hi. apply executor_map_filled; [now rewrite Hh|].
    rewrite Hh. lia. }
  { exact Hj. }
  destruct (consume_first_raise E futures 0
              (snd (executor_map E args sched ws)) j' e' Hj' Hbefore)
    as [Hc Hcons].
  pose proof (executor_map_frame E args sched ws) as (Hl1 & _).
  destruct (consume E futures 0 (snd (executor_map E args sched ws)))
    as [[k|e1] w2] eqn:Hcon; simpl in Hc; [discriminate|].
  injection Hc as ->.
  exists j', e', w2. split; [exact Hle|]. split; [exact Hj'|].
  split; [|split; [exact Hcons|split]].
  - rewrite (main_after_startup E args sched w ws Hst). fold futures.
    now rewrite Hcon.
  - rewrite <- Hlen. eapply lookup_lt_Some; eauto.
  - apply consume_frame in Hcon as (_ & Hh2 & _ & _ & _ & _ & Hl2).
    rewrite Hl2, Hl1, Hlog, <- app_assoc. simpl. do 2 f_equal.
    apply map_ext. intros o. symmetry. now apply warning_of_heap.
Qed.

End Extras.

(** ** The further properties on sample runs *)

(** X1 on a run that fetches two tiles. *)
Lemma only_tms_changes_tiles_witness :
  let E := online 0 0 0 in
  let a := sample_args "XYZ" xyz_url in
  let w := fresh [tile_100; tile_110] in
  String.eqb (args_type a) "TMS" = false
  /\ heap (snd (worker E a 10 0 w)) = heap w
  /\ heap (snd (main E a [1; 0] w)) = heap w.
Proof.
  intros E a w.
  assert (Hty : String.eqb (args_type a) "TMS" = false) by reflexivity.
  destruct (only_tms_changes_tiles E a [1; 0] w Hty) as [Hworker Hmain].
  split; [exact Hty|]. split; [apply Hworker|exact Hmain].
Defined.

(** X4 on the service type XYZ with a template for a bounding box. *)
Lemma keyerror_iff_template_misfit_witness :
  let E := online 0 0 0 in
  let a := sample_args "XYZ" bbox_url in
  let w := fresh [tile_100] in
  plain (args_url a) = true
  /\ template_fits a = false
  /\ (exists name w', worker E a 10 0 w = (Raise (KeyError name), w')
                      /\ trace w' = trace w)
  /\ In "xmin" (fields (args_url a)).
Proof.
  intros E a w.
  assert (Hp : plain (args_url a) = true) by reflexivity.
  assert (Hty : String.eqb (args_type a) "TMS" = false) by reflexivity.
  destruct (keyerror_iff_template_misfit E a 10%Z 0 w Hp Hty) as [[_ Hiff] Hname].
  split; [exact Hp|]. split; [reflexivity|]. split.
  - apply Hiff. split; [vm_compute; discriminate|]. repeat split; reflexivity.
  - destruct (Hname "xmin" (snd (worker E a 10 0 w))) as [Hin _];
      [vm_compute; reflexivity|reflexivity|exact Hin].
Defined.

(** X5 on a tile that is fetched and saved. *)
Lemma fetched_tile_is_on_disk_witness :
  let E := online 0 0 0 in
  let a := sample_args "XYZ" xyz_url in
  let w := fresh [tile_100] in
  let w' := snd (worker E a 10 0 w) in
  worker E a 10 0 w = (Return (0, Some "http://host/1/0/0", true), w')
  /\ exists payload image data,
       fetch_image E "http://host/1/0/0" (args_timeout a)
                   (length (requests (trace w))) = Some payload
       /\ Image_open E payload = Return image
       /\ Image_save E image (tile_path a (deref w 0)) = Saved data
       /\ lookup_path (tile_path a (deref w 0)) (fs w') = Some (File data).
Proof.
  intros E a w w'.
  assert (Hw : worker E a 10 0 w
               = (Return (0, Some "http://host/1/0/0", true), w'))
    by (vm_compute; reflexivity).
  split; [exact Hw|].
  exact (fetched_tile_is_on_disk E a 10%Z 0 w 0 "http://host/1/0/0" w' Hw).
Defined.

(** X6 on a tile that is fetched, then looked for again. *)
Lemma fetched_then_present_witness :
  let E := online 0 0 0 in
  let a := sample_args "XYZ" xyz_url in
  let w := fresh [tile_100] in
  let w' := snd (worker E a 10 0 w) in
  worker E a 10 0 w = (Return (0, Some "http://host/1/0/0", true), w')
  /\ fst (worker E a 10 0 w') = Return (0, None, true)
  /\ trace (snd (worker E a 10 0 w')) = trace w'.
Proof.
  intros E a w w'.
  assert (Hw : worker E a 10 0 w
               = (Return (0, Some "http://host/1/0/0", true), w'))
    by (vm_compute; reflexivity).
  destruct (fetched_then_present E a 10%Z 10%Z 0 w 0 "http://host/1/0/0" w'
              eq_refl Hw) as (Ho & Ht & _).
  split; [exact Hw|]. split; [exact Ho|exact Ht].
Defined.


(** X8 on a tile whose fetch fails. *)
Lemma tile_directory_created_witness :
  let a := sample_args "XYZ" xyz_url in
  let w := fresh [tile_100] in
  makedirs (tile_dir a (deref w 0)) (fs w) <> None
  /\ fst (worker offline a 10 0 w) = Return (0, Some "http://host/1/0/0", false)
  /\ isdir ["out"; "1"; "0"] (fs (snd (worker offline a 10 0 w))) = true.
Proof.
  intros a w.
  assert (Hmk : makedirs (tile_dir a (deref w 0)) (fs w) <> None)
    by (vm_compute; discriminate).
  destruct (tile_directory_created offline a 10%Z 0 w Hmk) as [Hdir _].
  split; [exact Hmk|]. split; [vm_compute; reflexivity|exact Hdir].
Defined.

(** X9 on a tile that is fetched at once, and sleeps a second. *)
Lemma sleeps_only_after_fetch_witness :
  let E := online 0 0 0 in
  let a := sample_args "XYZ" xyz_url in
  let w := fresh [tile_100] in
  let w' := snd (worker E a 10 0 w) in
  worker E a 10 0 w = (Return (0, Some "http://host/1/0/0", true), w')
  /\ (sleeps (trace w') = sleeps (trace w)
      \/ exists d, (0 < d)%Q /\ sleeps (trace w') = d :: sleeps (trace w)).
Proof.
  intros E a w w'.
  assert (Hw : worker E a 10 0 w
               = (Return (0, Some "http://host/1/0/0", true), w'))
    by (vm_compute; reflexivity).
  split; [exact Hw|].
  exact (sleeps_only_after_fetch E a 10%Z 0 w _ w' Hw).
Defined.

(** X10 on a tile fetched and saved in half a second. *)
Lemma fetched_task_lasts_an_interval_witness :
  let E := online (1 # 4) (1 # 4) 0 in
  let a := sample_args "XYZ" xyz_url in
  let w := fresh [tile_100] in
  let w' := snd (worker E a (args_rate a) 0 w) in
  worker E a (args_rate a) 0 w
  = (Return (0, Some "http://host/1/0/0", true), w')
  /\ (clock w + 1 <= clock w')%Q.
Proof.
  intros E a w w'.
  assert (Hw : worker E a (args_rate a) 0 w
               = (Return (0, Some "http://host/1/0/0", true), w'))
    by (vm_compute; reflexivity).
  split; [exact Hw|].
  exact (fetched_task_lasts_an_interval E a 0 w 0 "http://host/1/0/0" w' Hw).
Defined.

(** X11 on a run over one tile that is there and one that is fetched. *)
Lemma one_request_per_task_witness :
  let E := online 0 0 0 in
  let a := sample_args "XYZ" xyz_url in
  let w := downloaded [tile_100; mkTile 0 1 1] in
  returned (fst (executor_map E a [1; 0] w))
  = [(0, None, true); (1, Some "http://host/1/0/1", true)]
  /\ length (requests (trace w)) + 1
     <= length (requests (trace (snd (executor_map E a [1; 0] w))))
  /\ length (requests (trace (snd (main E a [1; 0] w)))) <= 2.
Proof.
  intros E a w.
  destruct (one_request_per_task E a [1; 0] w) as (_ & Hlow & _ & _ & Hmain).
  - simpl. apply perm_swap.
  - split; [reflexivity|]. split; [exact Hlow|exact Hmain].
Defined.

(** X15 on a run over one tile that is there and one that is fetched. *)
Lemma every_tile_accounted_for_witness :
  let E := online 0 0 0 in
  let a := sample_args "XYZ" xyz_url in
  let w := downloaded [tile_100; mkTile 0 1 1] in
  let outs := consumed (fst (executor_map E a [1; 0] (snd (startup a w)))) in
  main E a [1; 0] w = (Return tt, snd (main E a [1; 0] w))
  /\ length outs = 2
  /\ 2 = length (List.filter already_present outs)
         + length (List.filter fetched outs)
         + length (List.filter failed outs).
Proof.
  intros E a w outs.
  assert (Hm : main E a [1; 0] w = (Return tt, snd (main E a [1; 0] w)))
    by (vm_compute; reflexivity).
  destruct (every_tile_accounted_for E a [1; 0] w _ Hm) as [Hlen Hsum].
  split; [exact Hm|]. split; [exact Hlen|exact Hsum].
Defined.

(** X16 on a run with [--leaflet], and on a run that raises. *)
Lemma leaflet_called_at_the_end_witness :
  let E := online 0 0 0 in
  let a := mkArgs xyz_url "webp" 10 "XYZ" 10 ["out"] (Some "http://host/") in
  let b := mkArgs bbox_url "webp" 10 "XYZ" 10 ["out"] (Some "http://host/") in
  let w := fresh [tile_100] in
  preview (snd (main E a [0] w)) = Some [tile_100]
  /\ fst (main E b [0] w) = Raise (KeyError "xmin")
  /\ preview (snd (main E b [0] w)) = None.
Proof.
  intros E a b w.
  destruct (leaflet_called_at_the_end E a [0] w) as (Hcall & _ & _).
  destruct (leaflet_called_at_the_end E b [0] w) as (_ & _ & Hnot).
  split; [|split].
  - rewrite (Hcall (snd (main E a [0] w))) by (vm_compute; reflexivity).
    vm_compute. reflexivity.
  - vm_compute. reflexivity.
  - apply (Hnot (KeyError "xmin")). vm_compute. reflexivity.
Defined.

(** X17 on two tiles that a first run fetches. *)
Lemma rerun_after_success_fetches_nothing_witness :
  let E := online 0 0 0 in
  let a := sample_args "XYZ" xyz_url in
  let w := fresh [tile_100; tile_110] in
  main E a [1; 0] w = (Return tt, fetched_world)
  /\ fst (main E a [0; 1] fetched_world) = Return tt
  /\ trace (snd (main E a [0; 1] fetched_world)) = trace fetched_world.
Proof.
  intros E a w.
  assert (Hm : main E a [1; 0] w = (Return tt, fetched_world))
    by (vm_compute; reflexivity).
  assert (Hc : consumed (fst (executor_map E a [1; 0] (snd (startup a w))))
               = [(0, Some "http://host/1/0/0", true);
                  (1, Some "http://host/1/1/0", true)])
    by (vm_compute; reflexivity).
  destruct (rerun_after_success_fetches_nothing E a [1; 0] [0; 1] w fetched_world)
    as (Hr & _ & Ht).
  - reflexivity.
  - apply Permutation_refl.
  - exact Hm.
  - intros o Ho. rewrite Hc in Ho.
    destruct Ho as [<-|[<-|[]]]; reflexivity.
  - split; [exact Hm|]. split; [exact Hr|exact Ht].
Defined.

(** X18 on a tile that is fetched: the file of the other tile does not
    appear. *)
Lemma writes_only_its_own_file_witness :
  let E := online 0 0 0 in
  let a := sample_args "XYZ" xyz_url in
  let w := fresh [tile_100; tile_110] in
  let p := tile_path a tile_110 in
  p <> tile_path a (deref w 0)
  /\ isfile p (fs (snd (worker E a 10 0 w))) = false.
Proof.
  intros E a w p.
  assert (Hne : p <> tile_path a (deref w 0)) by (vm_compute; discriminate).
  split; [exact Hne|].
  rewrite (writes_only_its_own_file E a 10%Z 0 w p Hne). reflexivity.
Defined.

(** X19 on two tiles: the first is on disk, the second makes the worker
    raise, the template having a field that XYZ does not supply. *)
Lemma raising_run_reports_a_prefix_witness :
  let E := online 0 0 0 in
  let a := sample_args "XYZ" [Lit "http://host/"; Field "y"; Lit "/"; Field "q"] in
  let w := downloaded [tile_100; mkTile 5 5 5] in
  fst (executor_map E a [0; 1] (snd (startup a w))) !! 1
  = Some (Some (Raise (KeyError "q")))
  /\ fst (main E a [0; 1] w) = Raise (KeyError "q")
  /\ consumed (fst (executor_map E a [0; 1] (snd (startup a w))))
     = [(0, None, true)]
  /\ logs (snd (main E a [0; 1] w)) = [Begin "http://host/{y}/{q}"].
Proof.
  intros E a w.
  assert (Hj : fst (executor_map E a [0; 1] (snd (startup a w))) !! 1
               = Some (Some (Raise (KeyError "q"))))
    by (vm_compute; reflexivity).
  assert (Hc : consumed (fst (executor_map E a [0; 1] (snd (startup a w))))
               = [(0, None, true)])
    by (vm_compute; reflexivity).
  destruct (raising_run_reports_a_prefix E a [0; 1] w 1 (KeyError "q"))
    as (j' & e' & w' & _ & Hj' & Hm & Hlen & _ & Hl).
  - apply Permutation_refl.
  - reflexivity.
  - exact Hj.
  - rewrite Hc in Hlen, Hl. simpl in Hlen. subst j'.
    rewrite Hj in Hj'. injection Hj' as <-.
    split; [exact Hj|]. rewrite Hm. simpl.
    split; [reflexivity|]. split; [exact Hc|]. exact Hl.
Defined.
